(** * Twitter-Agent: the session poster of [Twitter_Test_Console/autoPost.js]

    A shallow embedding of the [TwitterPost] class and of its command line
    entry, and the properties of the specification proved about it.

    - Strings are sequences of 8-bit code units ([string]); [toLowerCase]
      acts on the letters A-Z and leaves every other code unit as it is.
    - [path.extname] is Node's POSIX implementation ([lib/path.js]), scanned
      from the right with the same five loop variables.
    - Every collaborator outside the class (the file system, [JSON], the
      cookie library, the platform client, the process environment) is a
      member of the [Platform] interface; the methods are written once for
      every implementation of it, in a state and exception monad whose state
      holds the object's [isLoggedIn] field, the outside world and the trace
      of the calls made so far.  A trace entry is a call with what came
      back, and the value [isLoggedIn] had when the call was made.
    - [Sim] is a stand-in implementation of the interface over a finite
      list of files, used to run the methods on concrete inputs. *)

From Stdlib Require Import ZArith Ascii String List Lia.
From stdpp Require Import base strings list gmap pretty.

Set Warnings "-register-all,-clear-no-such-hyp".

Open Scope string_scope.
Open Scope list_scope.
Open Scope Z_scope.

(** ** JavaScript strings *)

Module JsString.

(** [String.prototype.charCodeAt]: [None] stands for [NaN], the answer
    outside the string. *)
Definition charCodeAt (s : string) (i : nat) : option Z :=
  match String.get i s with
  | Some c => Some (Z.of_nat (nat_of_ascii c))
  | None => None
  end.

Definition code_is (code : option Z) (k : Z) : bool :=
  match code with
  | Some c => c =? k
  | None => false
  end.

(** [String.prototype.slice] for [0 <= from]. *)
Definition slice (s : string) (from to : Z) : string :=
  substring (Z.to_nat from) (Z.to_nat (to - from)) s.

Definition lower_char (c : ascii) : ascii :=
  let n := nat_of_ascii c in
  if ((65 <=? n) && (n <=? 90))%nat then ascii_of_nat (n + 32) else c.

Fixpoint toLowerCase (s : string) : string :=
  match s with
  | EmptyString => EmptyString
  | String c s' => String (lower_char c) (toLowerCase s')
  end.

(** The other folding of letter case, used only to say what
    "the same in any letter case" means. *)
Definition upper_char (c : ascii) : ascii :=
  let n := nat_of_ascii c in
  if ((97 <=? n) && (n <=? 122))%nat then ascii_of_nat (n - 32) else c.

Fixpoint toUpperCase (s : string) : string :=
  match s with
  | EmptyString => EmptyString
  | String c s' => String (upper_char c) (toUpperCase s')
  end.

(** Two strings that differ at most in the case of their letters. *)
Definition same_letters (s t : string) : bool :=
  bool_decide (toUpperCase s = toUpperCase t).

(** JavaScript truthiness of a string: every string but the empty one. *)
Definition truthy (s : string) : bool :=
  match s with
  | EmptyString => false
  | String _ _ => true
  end.

End JsString.

(** ** [path.extname] (POSIX) *)

Module NodePath.
Import JsString.

Definition CHAR_FORWARD_SLASH : Z := 47.
Definition CHAR_DOT : Z := 46.

(** The variables of the scanning loop. *)
Record Scan := mkScan {
  startDot : Z;
  startPart : Z;
  end_ : Z;
  matchedSlash : bool;
  preDotState : Z
}.

Definition scan_init : Scan :=
  {| startDot := -1; startPart := 0; end_ := -1;
     matchedSlash := true; preDotState := 0 |}.

(** The body of [for (let i = path.length - 1; i >= 0; --i)], for the
    indices [n - 1] down to [0]; [break] returns the variables as they
    are. *)
Fixpoint scan (path : string) (n : nat) (st : Scan) : Scan :=
  match n with
  | O => st
  | S i =>
      let code := charCodeAt path i in
      if code_is code CHAR_FORWARD_SLASH then
        if negb (matchedSlash st) then
          {| startDot := startDot st; startPart := Z.of_nat i + 1;
             end_ := end_ st; matchedSlash := matchedSlash st;
             preDotState := preDotState st |}
        else scan path i st
      else
        let st1 :=
          if end_ st =? -1 then
            {| startDot := startDot st; startPart := startPart st;
               end_ := Z.of_nat i + 1; matchedSlash := false;
               preDotState := preDotState st |}
          else st in
        let st2 :=
          if code_is code CHAR_DOT then
            if startDot st1 =? -1 then
              {| startDot := Z.of_nat i; startPart := startPart st1;
                 end_ := end_ st1; matchedSlash := matchedSlash st1;
                 preDotState := preDotState st1 |}
            else if negb (preDotState st1 =? 1) then
              {| startDot := startDot st1; startPart := startPart st1;
                 end_ := end_ st1; matchedSlash := matchedSlash st1;
                 preDotState := 1 |}
            else st1
          else if negb (startDot st1 =? -1) then
            {| startDot := startDot st1; startPart := startPart st1;
               end_ := end_ st1; matchedSlash := matchedSlash st1;
               preDotState := -1 |}
          else st1 in
        scan path i st2
  end.

Definition extname (path : string) : string :=
  let st := scan path (String.length path) scan_init in
  if (startDot st =? -1) || (end_ st =? -1) || (preDotState st =? 0)
     || ((preDotState st =? 1) && (startDot st =? end_ st - 1)
         && (startDot st =? startPart st + 1))
  then ""
  else slice path (startDot st) (end_ st).

(** The invariant of the scan when the indices below [n] remain: the end
    of the extension, once marked, lies above them, and the marked dot is
    a period of the path that lies before that end. *)
Definition marks_ok (path : string) (n : nat) (st : Scan) : Prop :=
  (end_ st = -1 \/ Z.of_nat n < end_ st) /\
  (startDot st = -1 \/
   (Z.of_nat n <= startDot st /\ startDot st < end_ st /\
    String.get (Z.to_nat (startDot st)) path = Some "."%char)).

End NodePath.

(** ** Values a property read can produce *)

(** What [mimeTypes[ext] || null] can evaluate to: a string of the table,
    [null], or a member every object literal inherits from
    [Object.prototype] (a function or the prototype itself, named here by
    its key). *)
Inductive JsValue :=
| JsStr (s : string)
| JsNull
| JsUndefined
| JsInherited (key : string).

Definition js_truthy (v : JsValue) : bool :=
  match v with
  | JsStr s => JsString.truthy s
  | JsNull | JsUndefined => false
  | JsInherited _ => true
  end.

(** [a || b] *)
Definition js_or (a b : JsValue) : JsValue :=
  if js_truthy a then a else b.

(** The keys an object literal answers without owning them. *)
Definition Object_prototype_keys : list string :=
  [ "constructor"; "__proto__"; "hasOwnProperty"; "isPrototypeOf";
    "propertyIsEnumerable"; "toLocaleString"; "toString"; "valueOf";
    "__defineGetter__"; "__defineSetter__"; "__lookupGetter__";
    "__lookupSetter__" ].

(** [obj[key]] for an object literal with the own properties [own]. *)
Definition js_get (own : gmap string string) (key : string) : JsValue :=
  match own !! key with
  | Some v => JsStr v
  | None =>
      if bool_decide (key ∈ Object_prototype_keys) then JsInherited key
      else JsUndefined
  end.

(** ** [TwitterPost.getMimeType] *)

Definition mimeTypes : gmap string string :=
  <[".jpg" := "image/jpeg"]>
  (<[".jpeg" := "image/jpeg"]>
  (<[".png" := "image/png"]>
  (<[".gif" := "image/gif"]>
  (<[".mp4" := "video/mp4"]>
  (<[".mov" := "video/quicktime"]> ∅))))).

Definition getMimeType (filePath : string) : JsValue :=
  let ext := JsString.toLowerCase (NodePath.extname filePath) in
  js_or (js_get mimeTypes ext) JsNull.

(** The classification as the specification lists it: extension (without
    the period) and MIME type. *)
Definition classification : list (string * string) :=
  [ ("jpg", "image/jpeg"); ("jpeg", "image/jpeg"); ("png", "image/png");
    ("gif", "image/gif"); ("mp4", "video/mp4"); ("mov", "video/quicktime") ].

(** A path has the extension [e], in any letter case, when what
    [path.extname] cuts from it is a period followed by [e] up to case. *)
Definition has_extension (filePath e : string) : bool :=
  JsString.same_letters (NodePath.extname filePath) ("." +:+ e).

(** ** Data *)

(** A thrown JavaScript value: an error with its name and message. *)
Inductive Exn := JsError (name message : string).

(** How a call completes: normally with a value, or by throwing. *)
Inductive Completion (A : Type) :=
| Normal (a : A)
| Throw (e : Exn).
Arguments Normal {A} a.
Arguments Throw {A} e.

Definition is_normal {A} (c : Completion A) : bool :=
  match c with Normal _ => true | Throw _ => false end.

(** A parsed JSON document. *)
Inductive Json :=
| JNull
| JBool (b : bool)
| JNumber (literal : string)
| JString (s : string)
| JArray (items : list Json)
| JObject (members : list (string * Json)).

(** One element of [mediaData]: [{ data, mediaType }]. *)
Record MediaData := mkMediaData {
  data : string;
  mediaType : JsValue
}.

Inductive Level := LevelLog | LevelWarn | LevelError.

(** An argument of a [console] call. *)
Inductive LogArg :=
| LStr (s : string)
| LErr (e : Exn).

(** ** The collaborators *)

(** Everything the class calls and does not define.  An operation takes the
    outside world as it is and answers with its completion and the world as
    it left it; the world is free to change at every call. *)
Class Platform := {
  World : Type;
  Cookie : Type;
  (** [path.join(__dirname, 'cookies.json')] *)
  cookiePath : string;
  (** [process.env] *)
  env : string -> option string;
  (** [fs.existsSync], [fs.promises.readFile] (with its encoding argument,
      when given) and [fs.promises.writeFile] *)
  fs_existsSync : string -> World -> bool * World;
  fs_readFile : string -> option string -> World -> Completion string * World;
  fs_writeFile : string -> string -> World -> Completion unit * World;
  (** [JSON.parse] and [JSON.stringify(_, null, 2)] *)
  JSON_parse : string -> Completion Json;
  JSON_stringify : Json -> string;
  (** [Cookie.fromJSON], which answers a cookie or [null] or throws, and
      [cookie.toJSON()] *)
  Cookie_fromJSON : Json -> Completion (option Cookie);
  Cookie_toJSON : Cookie -> Json;
  (** the platform client, [new Scraper()] *)
  scraper_login :
    option string -> option string -> option string ->
    World -> Completion unit * World;
  scraper_getCookies : World -> Completion (list Cookie) * World;
  scraper_setCookies : list Cookie -> World -> Completion unit * World;
  scraper_isLoggedIn : World -> Completion bool * World;
  (** [sendTweet(text, replyToTweetId, mediaData)]; an argument left out or
      [undefined] is [None] *)
  scraper_sendTweet :
    string -> option string -> option (list MediaData) ->
    World -> Completion unit * World;
  (** the empty text is not a JSON document *)
  JSON_parse_empty : is_normal (JSON_parse "") = false
}.

(** ** The methods of [TwitterPost] *)

Section TwitterPost.
Context {P : Platform}.

(** A call the program makes outside itself, with what came back. *)
Inductive Event :=
| ExistsSync (path : string) (r : bool)
| ReadFile (path : string) (encoding : option string) (r : Completion string)
| WriteFile (path content : string) (r : Completion unit)
| Login (username password email : option string) (r : Completion unit)
| GetCookies (r : Completion (list Cookie))
| SetCookies (cookies : list Cookie) (r : Completion unit)
| IsLoggedIn (r : Completion bool)
| SendTweet (text : string) (replyTo : option string)
    (media : option (list MediaData)) (r : Completion unit)
| Console (level : Level) (args : list LogArg)
| Exit (code : Z).

(** A trace entry: the event, and the value [this.isLoggedIn] had when
    the call was made. *)
Record Entry := mkEntry {
  authenticated : bool;
  event : Event
}.

Record State := mkState {
  isLoggedIn : bool;
  world : World;
  trace : list Entry
}.

(** The object as its constructor leaves it. *)
Definition new_TwitterPost (w : World) : State :=
  {| isLoggedIn := false; world := w; trace := [] |}.

Definition M (A : Type) : Type := State -> Completion A * State.

Definition ret {A} (a : A) : M A := fun s => (Normal a, s).

Definition bind {A B} (m : M A) (f : A -> M B) : M B :=
  fun s =>
    match m s with
    | (Normal a, s') => f a s'
    | (Throw e, s') => (Throw e, s')
    end.

Definition throw {A} (e : Exn) : M A := fun s => (Throw e, s).

(** [try { body } catch (error) { handler }] *)
Definition try_catch {A} (body : M A) (handler : Exn -> M A) : M A :=
  fun s =>
    match body s with
    | (Normal a, s') => (Normal a, s')
    | (Throw e, s') => handler e s'
    end.

Definition emit (ev : Event) (s : State) : State :=
  {| isLoggedIn := isLoggedIn s; world := world s;
     trace := trace s ++ [ {| authenticated := isLoggedIn s; event := ev |} ] |}.

(** A call of an operation of the platform: the world moves on, the call
    and its completion are recorded, and a throw propagates. *)
Definition with_world (s : State) (w : World) : State :=
  {| isLoggedIn := isLoggedIn s; world := w; trace := trace s |}.

Definition extern {R} (op : World -> Completion R * World)
    (ev : Completion R -> Event) : M R :=
  fun s =>
    let '(r, w') := op (world s) in
    (r, emit (ev r) (with_world s w')).

Definition console (level : Level) (args : list LogArg) : M unit :=
  fun s => (Normal tt, emit (Console level args) s).

(** [this.isLoggedIn = b] *)
Definition set_isLoggedIn (b : bool) : M unit :=
  fun s =>
    (Normal tt, {| isLoggedIn := b; world := world s; trace := trace s |}).

Definition get_isLoggedIn : M bool := fun s => (Normal (isLoggedIn s), s).

Definition of_completion {A} (c : Completion A) : M A := fun s => (c, s).

End TwitterPost.

Notation "'let*' x ':=' m 'in' k" := (bind m (fun x => k))
  (at level 10, x name, m at level 100, k at level 200).

Section Methods.
Context {P : Platform}.

Definition existsSync (path : string) : M bool :=
  extern
    (fun w => let '(b, w') := fs_existsSync path w in (Normal b, w'))
    (fun r => ExistsSync path (match r with Normal b => b | Throw _ => false end)).

Definition readFile (path : string) (encoding : option string) : M string :=
  extern (fs_readFile path encoding) (ReadFile path encoding).

Definition writeFile (path content : string) : M unit :=
  extern (fs_writeFile path content) (WriteFile path content).

Definition sendTweet (text : string) (replyTo : option string)
    (media : option (list MediaData)) : M unit :=
  extern (scraper_sendTweet text replyTo media) (SendTweet text replyTo media).

(** [async saveCookies(cookies)] *)
Definition saveCookies (cookies : list Cookie) : M unit :=
  try_catch
    (let cookiesJson := map Cookie_toJSON cookies in
     let* _ := writeFile cookiePath (JSON_stringify (JArray cookiesJson)) in
     console LevelLog [LStr "Cookies saved successfully"])
    (fun error => console LevelError [LStr "Cookie saving error:"; LErr error]).

(** [async login()] *)
Definition login : M unit :=
  try_catch
    (let* _ :=
       extern
         (scraper_login (env "TWITTER_USERNAME") (env "TWITTER_PASSWORD")
            (env "TWITTER_EMAIL"))
         (Login (env "TWITTER_USERNAME") (env "TWITTER_PASSWORD")
            (env "TWITTER_EMAIL")) in
     let* _ := set_isLoggedIn true in
     let* cookies := extern scraper_getCookies GetCookies in
     let* _ := saveCookies cookies in
     console LevelLog [LStr "Login successful!"])
    (fun error =>
       let* _ := console LevelError [LStr "Login error:"; LErr error] in
       throw error).

(** The callback of [cookiesJson.map]: one entry to a cookie or [null]. *)
Definition parse_cookie (cookieData : Json) : M (option Cookie) :=
  try_catch
    (of_completion (Cookie_fromJSON cookieData))
    (fun e =>
       let* _ := console LevelWarn [LStr "Failed to parse cookie:"; LErr e] in
       ret None).

Fixpoint array_map {A B} (f : A -> M B) (l : list A) : M (list B) :=
  match l with
  | [] => ret []
  | x :: l' => let* y := f x in let* ys := array_map f l' in ret (y :: ys)
  end.

(** [cookiesJson.map(...)]: only an array has the method. *)
Definition cookiesJson_map (cookiesJson : Json) : M (list (option Cookie)) :=
  match cookiesJson with
  | JArray items => array_map parse_cookie items
  | _ => throw (JsError "TypeError" "cookiesJson.map is not a function")
  end.

(** [.filter(cookie => cookie !== null)] *)
Definition filter_not_null (l : list (option Cookie)) : list Cookie :=
  omap id l.

(** [async loadCookies()] *)
Definition loadCookies : M unit :=
  try_catch
    (let* present := existsSync cookiePath in
     if present then
       let* cookiesData := readFile cookiePath (Some "utf8") in
       let* cookiesJson := of_completion (JSON_parse cookiesData) in
       let* parsed := cookiesJson_map cookiesJson in
       let cookies := filter_not_null parsed in
       if (0 <? length cookies)%nat then
         let* _ := extern (scraper_setCookies cookies) (SetCookies cookies) in
         let* live := extern scraper_isLoggedIn IsLoggedIn in
         let* _ := set_isLoggedIn live in
         console LevelLog [LStr "Cookies loaded successfully"]
       else
         let* _ := console LevelLog [LStr "No valid cookies found"] in
         set_isLoggedIn false
     else
       console LevelLog [LStr "No existing cookies found"])
    (fun error =>
       let* _ := console LevelError [LStr "Cookie loading error:"; LErr error] in
       set_isLoggedIn false).

(** [async initialize()] *)
Definition initialize : M unit :=
  try_catch
    (let* _ := loadCookies in
     let* logged := get_isLoggedIn in
     let* _ :=
       (if negb logged then
          let* _ := console LevelLog [LStr "Logging in..."] in
          login
        else ret tt) in
     console LevelLog [LStr "Twitter poster initialized!"])
    (fun error =>
       let* _ := console LevelError [LStr "Init error:"; LErr error] in
       throw error).

(** The body of [for (const filePath of mediaFiles)], with the array
    [mediaData] as it stands. *)
Fixpoint prepare_loop (mediaFiles : list string) (mediaData : list MediaData)
    : M (list MediaData) :=
  match mediaFiles with
  | [] => ret mediaData
  | filePath :: rest =>
      let* present := existsSync filePath in
      if negb present then
        let* _ := console LevelError [LStr ("File not found: " +:+ filePath)] in
        prepare_loop rest mediaData
      else
        let* data := readFile filePath None in
        let mediaType := getMimeType filePath in
        if negb (js_truthy mediaType) then
          let* _ := console LevelError [LStr ("Unsupported file type: " +:+ filePath)] in
          prepare_loop rest mediaData
        else
          prepare_loop rest
            (mediaData ++ [ {| data := data; mediaType := mediaType |} ])
  end.

(** [async prepareMediaData(mediaFiles)] *)
Definition prepareMediaData (mediaFiles : list string) : M (list MediaData) :=
  try_catch
    (prepare_loop mediaFiles [])
    (fun error =>
       let* _ := console LevelError [LStr "Media preparation error:"; LErr error] in
       ret []).

(** [if (!this.isLoggedIn) { await this.initialize(); }] *)
Definition ensure_initialized : M unit :=
  let* logged := get_isLoggedIn in
  if negb logged then initialize else ret tt.

(** [async post(text, mediaFiles)], with [this.prepareMediaData] as the
    method the object answers with. *)
Definition post_with (prepare : list string -> M (list MediaData))
    (text : string) (mediaFiles : list string) : M bool :=
  try_catch
    (let* _ := ensure_initialized in
     if (length mediaFiles =? 0)%nat then
       let* _ := sendTweet text None None in
       let* _ := console LevelLog [LStr "Text tweet sent:"; LStr text] in
       ret true
     else
       let* mediaData := prepare mediaFiles in
       let* _ :=
         (if (0 <? length mediaData)%nat then
            let* _ := sendTweet text None (Some mediaData) in
            console LevelLog
              [LStr ("Tweet sent with " +:+ pretty (length mediaData)
                     +:+ " media attachments")]
          else
            let* _ := sendTweet text None None in
            console LevelLog
              [LStr "Media preparation failed, sent as text-only tweet"]) in
       ret true)
    (fun error =>
       let* _ := console LevelError [LStr "Posting error:"; LErr error] in
       throw error).

Definition post : string -> list string -> M bool :=
  post_with prepareMediaData.

(** [async replyToTweet(tweetId, text, mediaFiles)] *)
Definition replyToTweet_with (prepare : list string -> M (list MediaData))
    (tweetId text : string) (mediaFiles : list string) : M bool :=
  try_catch
    (let* _ := ensure_initialized in
     let* mediaData := prepare mediaFiles in
     let* _ := sendTweet text (Some tweetId) (Some mediaData) in
     let* _ := console LevelLog [LStr ("Reply sent to tweet " +:+ tweetId)] in
     ret true)
    (fun error =>
       let* _ := console LevelError [LStr "Reply error:"; LErr error] in
       throw error).

Definition replyToTweet : string -> string -> list string -> M bool :=
  replyToTweet_with prepareMediaData.

(** ** The command line *)

(** [!x] for a string that may be [undefined]. *)
Definition js_not (x : option string) : bool :=
  match x with
  | Some s => negb (JsString.truthy s)
  | None => true
  end.

(** [process.exit(code)]: the run ends with this code. *)
Definition exit (code : Z) : M Z :=
  fun s => (Normal code, emit (Exit code) s).

(** The texts printed by the command line, without their quotation
    marks and line breaks. *)
Definition usage : string :=
  "Usage: Post tweet: node script.js tweet Your tweet text [media1.jpg media2.jpg ...] Reply to tweet: node script.js reply tweet_id Your reply text [media1.jpg media2.jpg ...]".

Definition unknown_command : string :=
  "Unknown command. Use tweet or reply".

(** [op.then(() => process.exit(0)).catch(error => { ...; process.exit(1) })] *)
Definition exit_with (op : M bool) : M Z :=
  try_catch
    (let* _ := op in exit 0)
    (fun error =>
       let* _ := console LevelError [LStr "Error:"; LErr error] in exit 1).

(** The script run as the main module; [argv] is [process.argv], and the
    answer is the exit code. *)
Definition main (argv : list string) : M Z :=
  let command := argv !! 2%nat in
  let args := drop 3 argv in
  if js_not command then
    let* _ := console LevelLog [LStr usage] in exit 1
  else
    let* _ := set_isLoggedIn false in
    let c := JsString.toLowerCase (default "" command) in
    if bool_decide (c = "tweet") then
      let text := args !! 0%nat in
      let mediaFiles := drop 1 args in
      if js_not text then
        let* _ := console LevelLog [LStr "Tweet text is required"] in exit 1
      else exit_with (post (default "" text) mediaFiles)
    else if bool_decide (c = "reply") then
      let tweetId := args !! 0%nat in
      let replyText := args !! 1%nat in
      let replyMedia := drop 2 args in
      if js_not tweetId || js_not replyText then
        let* _ := console LevelLog [LStr "Tweet ID and reply text are required"] in exit 1
      else
        exit_with
          (replyToTweet (default "" tweetId) (default "" replyText) replyMedia)
    else
      let* _ := console LevelLog [LStr unknown_command] in exit 1.

End Methods.

(** ** What a run has added to the trace *)

Section Observations.
Context {P : Platform}.

(** The entries a run from [s] to [s'] has appended. *)
Definition new_entries (s s' : State) : list Entry :=
  drop (length (trace s)) (trace s').

Definition new_events (s s' : State) : list Event :=
  map event (new_entries s s').

Definition is_send (ev : Event) : bool :=
  match ev with SendTweet _ _ _ _ => true | _ => false end.

(** The platform has confirmed a session: [isLoggedIn()] answered
    [true], or [login] returned. *)
Definition confirms_session (ev : Event) : bool :=
  match ev with
  | IsLoggedIn (Normal true) => true
  | Login _ _ _ (Normal _) => true
  | _ => false
  end.

Definition is_warning (ev : Event) : bool :=
  match ev with Console LevelWarn _ => true | _ => false end.

Definition is_error_log (ev : Event) : bool :=
  match ev with Console LevelError _ => true | _ => false end.

Definition is_failed_read (ev : Event) : bool :=
  match ev with ReadFile _ _ (Throw _) => true | _ => false end.

(** The cookie a record of the cookie file stands for, when
    [Cookie.fromJSON] makes one of it. *)
Definition valid_cookie (cookieData : Json) : option Cookie :=
  match Cookie_fromJSON cookieData with
  | Normal (Some c) => Some c
  | _ => None
  end.

(** The warning [loadCookies] prints for a record, when parsing it
    throws. *)
Definition parse_warning (cookieData : Json) : list Event :=
  match Cookie_fromJSON cookieData with
  | Throw e => [Console LevelWarn [LStr "Failed to parse cookie:"; LErr e]]
  | Normal _ => []
  end.

End Observations.

(** ** The vocabulary of the properties *)

(** What [prepareMediaData] makes of a path when [content] tells what
    each existing file holds. *)
Definition attachment (content : string -> option string) (filePath : string)
    : option MediaData :=
  match content filePath with
  | Some data =>
      if js_truthy (getMimeType filePath)
      then Some {| data := data; mediaType := getMimeType filePath |}
      else None
  | None => None
  end.

(** The files of a run that stay as they are: [files path] is [None]
    when there is no file at [path], and otherwise what reading it
    gives, its content or what the read throws (a directory, a file
    without permission). *)
Definition readable (files : string -> option (Completion string))
    (filePath : string) : option string :=
  match files filePath with
  | Some (Normal data) => Some data
  | _ => None
  end.

(** What the read of the first path that exists and cannot be read
    throws. *)
Fixpoint unreadable (files : string -> option (Completion string))
    (mediaFiles : list string) : option Exn :=
  match mediaFiles with
  | [] => None
  | filePath :: rest =>
      match files filePath with
      | Some (Throw e) => Some e
      | _ => unreadable files rest
      end
  end.

(** The paths before that one: all of them when every file can be
    read. *)
Fixpoint before_unreadable (files : string -> option (Completion string))
    (mediaFiles : list string) : list string :=
  match mediaFiles with
  | [] => []
  | filePath :: rest =>
      match files filePath with
      | Some (Throw _) => []
      | _ => filePath :: before_unreadable files rest
      end
  end.

(** The attachments of the paths that exist and are classified, in the
    order of the input, when every existing file of the input can be
    read, and none at all otherwise. *)
Definition prepared (files : string -> option (Completion string))
    (mediaFiles : list string) : list MediaData :=
  match unreadable files mediaFiles with
  | None => omap (attachment (readable files)) mediaFiles
  | Some _ => []
  end.

Section Vocabulary.
Context {P : Platform}.

(** The error printed for a path that is skipped. *)
Definition skip_message (content : string -> option string)
    (filePath : string) : list Event :=
  match content filePath with
  | None => [Console LevelError [LStr ("File not found: " +:+ filePath)]]
  | Some _ =>
      if js_truthy (getMimeType filePath) then []
      else [Console LevelError [LStr ("Unsupported file type: " +:+ filePath)]]
  end.



(** An attachment of the result comes from a path of the input whose
    file was read in this run and whose type is classified. *)
Definition prepared_from (mediaFiles : list string) (evs : list Event)
    (d : MediaData) : Prop :=
  exists filePath,
    filePath ∈ mediaFiles /\
    ReadFile filePath None (Normal (data d)) ∈ evs /\
    mediaType d = getMimeType filePath /\
    js_truthy (mediaType d) = true.

(** A send of [text] alone from the state [s]: the platform client is
    called with no reply target and no attachments; the operation returns
    [true] when the client returns, printing [log], and throws what the
    client threw otherwise, printing it. *)
Definition text_only_send (text : string) (log : list LogArg) (s : State)
    : Completion bool * State :=
  let r := (scraper_sendTweet text None None (world s)).1 in
  let s' :=
    emit (SendTweet text None None r)
      (with_world s (scraper_sendTweet text None None (world s)).2) in
  match r with
  | Normal _ => (Normal true, emit (Console LevelLog log) s')
  | Throw e =>
      (Throw e, emit (Console LevelError [LStr "Posting error:"; LErr e]) s')
  end.

(** The send of a reply to [tweetId] with the attachments [mediaData]. *)
Definition reply_send (tweetId text : string) (mediaData : list MediaData)
    (s : State) : Completion bool * State :=
  let r :=
    (scraper_sendTweet text (Some tweetId) (Some mediaData) (world s)).1 in
  let s' :=
    emit (SendTweet text (Some tweetId) (Some mediaData) r)
      (with_world s
         (scraper_sendTweet text (Some tweetId) (Some mediaData) (world s)).2) in
  match r with
  | Normal _ =>
      (Normal true,
       emit (Console LevelLog [LStr ("Reply sent to tweet " +:+ tweetId)]) s')
  | Throw e =>
      (Throw e, emit (Console LevelError [LStr "Reply error:"; LErr e]) s')
  end.

(** The cookies handed to the platform client in a run: what the
    specification calls the sequence that loading returns. *)
Definition loaded_cookies (evs : list Event) : list Cookie :=
  flat_map (fun ev => match ev with SetCookies cs _ => cs | _ => [] end) evs.

(** What the callback of [cookiesJson.map] makes of a record. *)
Definition parsed_entry (cookieData : Json) : option Cookie :=
  match Cookie_fromJSON cookieData with
  | Normal o => o
  | Throw _ => None
  end.

Definition stamp (b : bool) (evs : list Event) : list Entry :=
  map (mkEntry b) evs.

(** From a state in [Pre], the run of [m] ends in a state and with a
    completion that [Post] relates. *)
Definition hoare {A} (Pre : State -> Prop) (m : M A)
    (Post : Completion A -> State -> Prop) : Prop :=
  forall s, Pre s -> Post (m s).1 (m s).2.

(** [m] keeps the invariant [I], however it completes. *)
Definition keeps {A} (I : State -> Prop) (m : M A) : Prop :=
  hoare I m (fun _ => I).

(** An invariant that calls other than sends do not disturb: it survives
    a change of the outside world and a new trace entry that is no send. *)
Definition undisturbed (I : State -> Prop) : Prop :=
  forall s w ev, I s -> is_send ev = false -> I (emit ev (with_world s w)).

(** Every send the run from [s] to [s'] has made was made with
    [isLoggedIn] true, and, when [s] had no session, after a call in which
    the platform confirmed one. *)
Definition session_guarded (s s' : State) : Prop :=
  forall pre e post,
    new_entries s s' = pre ++ e :: post -> is_send (event e) = true ->
    authenticated e = true /\
    (isLoggedIn s = false ->
     exists e', e' ∈ pre /\ confirms_session (event e') = true).

(** From [s] the operation [op] starts with [initialize]: when that
    returns, the session is there and [op] goes on as from the state it
    left; when it throws, [op] prints the error and throws it, and does
    nothing else. *)
Definition initialize_first {A} (label : string) (op : M A) (s : State) : Prop :=
  match initialize s with
  | (Normal _, s1) => isLoggedIn s1 = true /\ op s = op s1
  | (Throw e, s1) =>
      op s = (Throw e, emit (Console LevelError [LStr label; LErr e]) s1)
  end.

(** The text [saveCookies] writes for [cookies]. *)
Definition cookie_file_text (cookies : list Cookie) : string :=
  JSON_stringify (JArray (map Cookie_toJSON cookies)).

(** The state in which a run ends that printed [message] and exited with
    code 1 without calling anything else: the world is as it was. *)
Definition refused (message : string) (w : World) : State :=
  {| isLoggedIn := false; world := w;
     trace :=
       [ {| authenticated := false; event := Console LevelLog [LStr message] |};
         {| authenticated := false; event := Exit 1 |} ] |}.

(** The exit code for an operation: 0 when it returns, 1 when it throws. *)
Definition exit_code (c : Completion bool) : Z :=
  if is_normal c then 0 else 1.

(** *** The session guard *)

Section Guard.

(** The trace and the session state at the start of the run observed. *)
Variable base : list Entry.
Variable b0 : bool.

(** Every send among the entries [d] was made with [isLoggedIn] true, and,
    when the run started without a session, after the platform had
    confirmed one. *)
Definition guarded (d : list Entry) : Prop :=
  forall pre e post,
    d = pre ++ e :: post -> is_send (event e) = true ->
    authenticated e = true /\
    (b0 = false ->
     exists e', e' ∈ pre /\ confirms_session (event e') = true).

Definition confirmed (d : list Entry) : Prop :=
  b0 = true \/ exists e', e' ∈ d /\ confirms_session (event e') = true.

Definition inv_confirmed (s : State) : Prop :=
  exists d, trace s = base ++ d /\ guarded d /\ confirmed d.

Definition inv (s : State) : Prop :=
  exists d,
    trace s = base ++ d /\ guarded d /\ (isLoggedIn s = true -> confirmed d).

Definition inv_authenticated (s : State) : Prop :=
  inv s /\ isLoggedIn s = true.

(** The session is there when the method returns. *)
Definition session_ensured (r : Completion unit) (s : State) : Prop :=
  inv s /\ (is_normal r = true -> isLoggedIn s = true).

End Guard.

End Vocabulary.

(** ** A stand-in platform *)

Module Sim.

Inductive Node :=
| File (content : string)
| Directory.

(** A cookie of the stand-in: a key and a value. *)
Definition SimCookie : Type := string * string.

(** The files: a path holds what the first entry for it says. *)
Fixpoint node_at (fs : list (string * Node)) (p : string) : option Node :=
  match fs with
  | [] => None
  | (q, n) :: fs' => if String.eqb q p then Some n else node_at fs' p
  end.

Record SimWorld := mkWorld {
  files : list (string * Node);
  (** the client accepts the configured credentials *)
  accepts_login : bool;
  (** the client holds a live session *)
  live : bool;
  (** the client accepts a send *)
  accepts_send : bool;
  (** the cookies the client holds *)
  jar : list SimCookie;
  (** what the client has sent *)
  sent : list (string * option string * option (list MediaData))
}.

Definition sim_existsSync (p : string) (w : SimWorld) : bool * SimWorld :=
  (match node_at (files w) p with Some _ => true | None => false end, w).

Definition sim_readFile (p : string) (encoding : option string)
    (w : SimWorld) : Completion string * SimWorld :=
  match node_at (files w) p with
  | Some (File c) => (Normal c, w)
  | Some Directory => (Throw (JsError "Error" "EISDIR"), w)
  | None => (Throw (JsError "Error" "ENOENT"), w)
  end.

Definition sim_writeFile (p content : string) (w : SimWorld)
    : Completion unit * SimWorld :=
  match node_at (files w) p with
  | Some Directory => (Throw (JsError "Error" "EISDIR"), w)
  | _ =>
      (Normal tt,
       {| files := (p, File content) :: files w;
          accepts_login := accepts_login w; live := live w;
          accepts_send := accepts_send w; jar := jar w; sent := sent w |})
  end.

Definition sim_login (u p e : option string) (w : SimWorld)
    : Completion unit * SimWorld :=
  if accepts_login w then
    (Normal tt,
     {| files := files w; accepts_login := accepts_login w; live := true;
        accepts_send := accepts_send w; jar := [("auth_token", "fresh")];
        sent := sent w |})
  else (Throw (JsError "Error" "login refused"), w).

Definition sim_getCookies (w : SimWorld)
    : Completion (list SimCookie) * SimWorld :=
  (Normal (jar w), w).

Definition sim_setCookies (cs : list SimCookie) (w : SimWorld)
    : Completion unit * SimWorld :=
  (Normal tt,
   {| files := files w; accepts_login := accepts_login w; live := live w;
      accepts_send := accepts_send w; jar := cs; sent := sent w |}).

Definition sim_isLoggedIn (w : SimWorld) : Completion bool * SimWorld :=
  (Normal (live w), w).

Definition sim_sendTweet (text : string) (replyTo : option string)
    (media : option (list MediaData)) (w : SimWorld)
    : Completion unit * SimWorld :=
  if accepts_send w then
    (Normal tt,
     {| files := files w; accepts_login := accepts_login w; live := live w;
        accepts_send := accepts_send w; jar := jar w;
        sent := sent w ++ [(text, replyTo, media)] |})
  else (Throw (JsError "Error" "send refused"), w).

(** The stand-in reads the texts of a given table and no other. *)
Definition sim_parse (documents : list (string * Json)) (text : string)
    : Completion Json :=
  if bool_decide (text = "") then
    Throw (JsError "SyntaxError" "Unexpected end of JSON input")
  else
    match list_find (fun d => bool_decide (fst d = text)) documents with
    | Some (_, d) => Normal (snd d)
    | None => Throw (JsError "SyntaxError" "Unexpected token")
    end.

Fixpoint sim_stringify (j : Json) : string :=
  match j with
  | JNull => "null"
  | JBool b => if b then "true" else "false"
  | JNumber literal => literal
  | JString s => "'" +:+ s +:+ "'"
  | JArray items =>
      "[" +:+ String.concat "," (map sim_stringify items) +:+ "]"
  | JObject members =>
      "{" +:+
      String.concat ","
        (map (fun m => let (k, v) := m : string * Json in
                       k +:+ ":" +:+ sim_stringify v) members)
      +:+ "}"
  end.

Definition sim_toJSON (c : SimCookie) : Json :=
  JObject [("key", JString (fst c)); ("value", JString (snd c))].

(** A string member of a record, and [absent] when there is none. *)
Fixpoint member (name : string) (absent : string)
    (members : list (string * Json)) : string :=
  match members with
  | [] => absent
  | (k, v) :: rest =>
      if String.eqb k name then
        match v with JString s => s | _ => absent end
      else member name absent rest
  end.

(** The cookie made of a value: its key and its value, each the empty
    string when the value has no such member. *)
Definition cookie_of (j : Json) : SimCookie :=
  match j with
  | JObject members => (member "key" "" members, member "value" "" members)
  | _ => ("", "")
  end.

(** A number literal that denotes zero: no digit other than 0 before
    its exponent. *)
Fixpoint zero_literal (literal : string) : bool :=
  match literal with
  | EmptyString => true
  | String c rest =>
      if Ascii.eqb c "e" || Ascii.eqb c "E" then true
      else if Ascii.eqb c "0" || Ascii.eqb c "." || Ascii.eqb c "-"
      then zero_literal rest
      else false
  end.

Definition falsy (j : Json) : bool :=
  match j with
  | JNull | JBool false | JString "" => true
  | JNumber literal => zero_literal literal
  | _ => false
  end.

(** [Cookie.fromJSON] as the cookie library has it.  A falsy value gives
    [null].  A string is parsed as a JSON text first, and gives [null]
    when it is none.  The cookie is then made of the members of the value,
    so that any other value gives a cookie; only [null], which the text
    [null] parses to, has no members to read, and reading them throws. *)
Definition sim_fromJSON (documents : list (string * Json)) (j : Json)
    : Completion (option SimCookie) :=
  if falsy j then Normal None
  else
    match j with
    | JString text =>
        match sim_parse documents text with
        | Throw _ => Normal None
        | Normal JNull =>
            Throw (JsError "TypeError" "Cannot read properties of null")
        | Normal obj => Normal (Some (cookie_of obj))
        end
    | obj => Normal (Some (cookie_of obj))
    end.

#[local] Instance platform (documents : list (string * Json)) : Platform := {|
  World := SimWorld;
  Cookie := SimCookie;
  cookiePath := "cookies.json";
  env := fun _ => Some "secret";
  fs_existsSync := sim_existsSync;
  fs_readFile := sim_readFile;
  fs_writeFile := sim_writeFile;
  JSON_parse := sim_parse documents;
  JSON_stringify := sim_stringify;
  Cookie_fromJSON := sim_fromJSON documents;
  Cookie_toJSON := sim_toJSON;
  scraper_login := sim_login;
  scraper_getCookies := sim_getCookies;
  scraper_setCookies := sim_setCookies;
  scraper_isLoggedIn := sim_isLoggedIn;
  scraper_sendTweet := sim_sendTweet;
  JSON_parse_empty := eq_refl
|}.

(** A world with the given files, where the client accepts everything
    and holds no session yet. *)
Definition world_of (fs : list (string * Node)) : SimWorld :=
  {| files := fs; accepts_login := true; live := false;
     accepts_send := true; jar := []; sent := [] |}.

(** What the files [fs] are for a run: a regular file reads as its
    content, and the read of a directory throws. *)
Definition outcome_of (fs : list (string * Node)) (p : string)
    : option (Completion string) :=
  match node_at fs p with
  | Some (File c) => Some (Normal c)
  | Some Directory => Some (Throw (JsError "Error" "EISDIR"))
  | None => None
  end.

(** The worlds whose files are [fs]. *)
Definition has_files (fs : list (string * Node)) (w : SimWorld) : Prop :=
  files w = fs.

(** The object as constructed, in a world with the files [fs]. *)
Definition fresh (documents : list (string * Json))
    (fs : list (string * Node))
    : @State (platform documents) :=
  @new_TwitterPost (platform documents) (world_of fs).

(** One picture. *)
Definition one_picture : list (string * Node) :=
  [ ("exists.png", File "PNG") ].

(** One picture, and a directory named like a picture. *)
Definition picture_and_directory : list (string * Node) :=
  ("d.png", Directory) :: one_picture.

(** A cookie file with one valid record and one that is no cookie: a
    string that is no JSON text. *)
Definition cookie_text : string := "one valid and one malformed record".

Definition cookie_documents : list (string * Json) :=
  [ (cookie_text,
     JArray [ JObject [("key", JString "auth_token"); ("value", JString "abc")];
              JString "junk" ]) ].

Definition with_cookie_file : list (string * Node) :=
  [ ("cookies.json", File cookie_text) ].

(** A cookie file with one valid record and the string [null]. *)
Definition null_text : string := "one valid record and the text null".

Definition null_documents : list (string * Json) :=
  [ (null_text,
     JArray [ JObject [("key", JString "auth_token"); ("value", JString "abc")];
              JString "null" ]);
    ("null", JNull) ].

Definition with_null_file : list (string * Node) :=
  [ ("cookies.json", File null_text) ].

(** A client that refuses the send. *)
Definition refusing_send : SimWorld :=
  {| files := []; accepts_login := true; live := false;
     accepts_send := false; jar := []; sent := [] |}.

(** The cookie path taken by a directory: the file cannot be written. *)
Definition cookie_path_blocked : list (string * Node) :=
  [ ("cookies.json", Directory) ].

End Sim.
(** ** The vocabulary of the further properties *)

Section FurtherVocabulary.
Context {P : Platform}.

(** The call [this.scraper.login(...)] with the three credentials of the
    environment, and its trace event. *)
Definition login_call : World -> Completion unit * World :=
  scraper_login (env "TWITTER_USERNAME") (env "TWITTER_PASSWORD")
    (env "TWITTER_EMAIL").

Definition login_event_of (r : Completion unit) : Event :=
  Login (env "TWITTER_USERNAME") (env "TWITTER_PASSWORD")
    (env "TWITTER_EMAIL") r.

(** The send of [text] with the attachments [mediaData] and no reply
    target, as [post] makes it. *)
Definition media_send (text : string) (mediaData : list MediaData)
    (s : State) : Completion bool * State :=
  let r := (scraper_sendTweet text None (Some mediaData) (world s)).1 in
  let s' :=
    emit (SendTweet text None (Some mediaData) r)
      (with_world s
         (scraper_sendTweet text None (Some mediaData) (world s)).2) in
  match r with
  | Normal _ =>
      (Normal true,
       emit (Console LevelLog
               [LStr ("Tweet sent with " +:+ pretty (length mediaData)
                      +:+ " media attachments")]) s')
  | Throw e =>
      (Throw e, emit (Console LevelError [LStr "Posting error:"; LErr e]) s')
  end.

(** The third argument of [sendTweet] in [post]: the attachments when
    there are some, and nothing otherwise. *)
Definition post_media (mediaData : list MediaData) : option (list MediaData) :=
  match mediaData with
  | [] => None
  | _ :: _ => Some mediaData
  end.

Definition is_array (j : Json) : bool :=
  match j with JArray _ => true | _ => false end.

Definition is_write (ev : Event) : bool :=
  match ev with WriteFile _ _ _ => true | _ => false end.

Definition is_exit (ev : Event) : bool :=
  match ev with Exit _ => true | _ => false end.

(** A send that the client accepted. *)
Definition is_accepted_send (ev : Event) : bool :=
  match ev with SendTweet _ _ _ (Normal _) => true | _ => false end.

(** The calls of the media preparation over [mediaFiles]: the existence
    test and the read without encoding of a path of the input, and an
    error printed. *)
Definition media_event (mediaFiles : list string) (ev : Event) : bool :=
  match ev with
  | ExistsSync p _ => bool_decide (p ∈ mediaFiles)
  | ReadFile p None _ => bool_decide (p ∈ mediaFiles)
  | Console LevelError _ => true
  | _ => false
  end.

(** The calls of [loadCookies]: the cookie file is tested and read, the
    client is given cookies and asked for the session, and texts are
    printed. *)
Definition load_event (ev : Event) : bool :=
  match ev with
  | ExistsSync p _ => bool_decide (p = cookiePath)
  | ReadFile p (Some _) _ => bool_decide (p = cookiePath)
  | SetCookies _ _ | IsLoggedIn _ | Console _ _ => true
  | _ => false
  end.

(** The calls of [login]: the client logs in and is asked for its
    cookies, the cookie file is written, and texts are printed. *)
Definition login_event (ev : Event) : bool :=
  match ev with
  | Login _ _ _ _ | GetCookies _ | Console _ _ => true
  | WriteFile p _ _ => bool_decide (p = cookiePath)
  | _ => false
  end.

Definition session_event (ev : Event) : bool :=
  load_event ev || login_event ev.

(** The calls of an operation over [mediaFiles]. *)
Definition operation_event (mediaFiles : list string) (ev : Event) : bool :=
  session_event ev || media_event mediaFiles ev || is_send ev.

(** Since the trace [base], the run has made only calls in [allowed]. *)
Definition only_since (allowed : Event -> bool) (base : list Entry)
    (s : State) : Prop :=
  exists d,
    trace s = base ++ d /\ Forall (fun e => allowed (event e) = true) d.

(** A text printed. *)
Definition is_print (ev : Event) : bool :=
  match ev with Console _ _ => true | _ => false end.

(** The operation that ended with [res] from the state [s] has called the
    client's send at most once, for [text] and [replyTo]: when it returned,
    it returned [true], with the session there, after one send that the
    client accepted; when it threw, either nothing was sent or the one send
    made threw that error. *)
Definition sends_once (text : string) (replyTo : option string) (s : State)
    (res : Completion bool * State) : Prop :=
  match res.1 with
  | Normal b =>
      b = true /\ isLoggedIn res.2 = true /\
      exists media,
        List.filter is_send (new_events s res.2)
        = [SendTweet text replyTo media (Normal tt)]
  | Throw e =>
      List.filter is_send (new_events s res.2) = [] \/
      exists media,
        List.filter is_send (new_events s res.2)
        = [SendTweet text replyTo media (Throw e)]
  end.

(** How a run ends: with [code], after one exit, the last event, and with
    one accepted send for the code 0 and none for another code. *)
Definition ends_with (code : Z) (evs : list Event) : Prop :=
  (code = 0 \/ code = 1) /\
  last evs = Some (Exit code) /\
  List.filter is_exit evs = [Exit code] /\
  length (List.filter is_accepted_send evs) = (if code =? 0 then 1%nat else 0%nat).





End FurtherVocabulary.

(** A path without a period. *)
Fixpoint no_period (path : string) : bool :=
  match path with
  | EmptyString => true
  | String c rest => negb (Ascii.eqb c ".") && no_period rest
  end.

(** Further stand-ins. *)
Module SimMore.
Import Sim.

(** A client that refuses the credentials. *)
Definition refusing_login : SimWorld :=
  {| files := []; accepts_login := false; live := false;
     accepts_send := true; jar := []; sent := [] |}.

(** A client whose session is live, with the files [fs]. *)
Definition live_world (fs : list (string * Node)) : SimWorld :=
  {| files := fs; accepts_login := true; live := true;
     accepts_send := true; jar := []; sent := [] |}.

(** The stand-in with a client that cannot give its cookies. *)
Definition platform_without_cookies : Platform := {|
  World := SimWorld;
  Cookie := SimCookie;
  cookiePath := "cookies.json";
  env := fun _ => Some "secret";
  fs_existsSync := sim_existsSync;
  fs_readFile := sim_readFile;
  fs_writeFile := sim_writeFile;
  JSON_parse := sim_parse [];
  JSON_stringify := sim_stringify;
  Cookie_fromJSON := sim_fromJSON [];
  Cookie_toJSON := sim_toJSON;
  scraper_login := sim_login;
  scraper_getCookies :=
    fun w => (Throw (JsError "Error" "no cookies"), w);
  scraper_setCookies := sim_setCookies;
  scraper_isLoggedIn := sim_isLoggedIn;
  scraper_sendTweet := sim_sendTweet;
  JSON_parse_empty := eq_refl
|}.

(** The cookies of a session, and the table that reads back the text
    the stand-in writes for them. *)
Definition session_cookies : list SimCookie :=
  [ ("auth_token", "abc"); ("ct0", "def") ].

Definition session_documents : list (string * Json) :=
  [ (sim_stringify (JArray (map sim_toJSON session_cookies)),
     JArray (map sim_toJSON session_cookies)) ].

(** A cookie file that holds an object and no array. *)
Definition object_text : string := "an object".

Definition object_documents : list (string * Json) :=
  [ (object_text, JObject [("key", JString "auth_token")]) ].

Definition with_object_file : list (string * Node) :=
  [ ("cookies.json", File object_text) ].

(** An object that holds a session, in the world [w]. *)
Definition signed_in (documents : list (string * Json)) (w : SimWorld)
    : @State (platform documents) :=
  @mkState (platform documents) true w [].

End SimMore.

(** * Properties *)

(** ** Letter case *)

Module JsStringFacts.
Import JsString.

Lemma lower_upper_char c : lower_char (upper_char c) = lower_char c.
Proof.
  destruct c as [[] [] [] [] [] [] [] []]; vm_compute; reflexivity.
Qed.

Lemma upper_lower_char c : upper_char (lower_char c) = upper_char c.
Proof.
  destruct c as [[] [] [] [] [] [] [] []]; vm_compute; reflexivity.
Qed.

Lemma toLowerCase_toUpperCase s : toLowerCase (toUpperCase s) = toLowerCase s.
Proof.
  induction s as [|c s IH]; simpl; [reflexivity|].
  now rewrite lower_upper_char, IH.
Qed.

Lemma toUpperCase_toLowerCase s : toUpperCase (toLowerCase s) = toUpperCase s.
Proof.
  induction s as [|c s IH]; simpl; [reflexivity|].
  now rewrite upper_lower_char, IH.
Qed.

(** Strings with the same letters have the same lower-case form. *)
Lemma same_letters_lower s t :
  same_letters s t = true -> toLowerCase s = toLowerCase t.
Proof.
  unfold same_letters. intros H%bool_decide_eq_true.
  rewrite <- (toLowerCase_toUpperCase s), H.
  apply toLowerCase_toUpperCase.
Qed.

Lemma lower_same_letters s t :
  toLowerCase s = toLowerCase t -> same_letters s t = true.
Proof.
  intros H. unfold same_letters. apply bool_decide_eq_true.
  rewrite <- (toUpperCase_toLowerCase s), H.
  apply toUpperCase_toLowerCase.
Qed.

Lemma lower_char_dot : lower_char "." = "."%char.
Proof. reflexivity. Qed.

Lemma substring_get n m s c :
  String.get n s = Some c ->
  substring n (S m) s = String c (substring (S n) m s).
Proof.
  revert s. induction n as [|n IH]; intros [|a s] H; simpl in *;
    try discriminate.
  - injection H as ->. reflexivity.
  - rewrite (IH s H). reflexivity.
Qed.

Lemma code_is_char s i k :
  code_is (charCodeAt s i) (Z.of_nat (nat_of_ascii k)) = true ->
  String.get i s = Some k.
Proof.
  unfold code_is, charCodeAt.
  destruct (String.get i s) as [c|]; [|discriminate].
  intros H%Z.eqb_eq%Nat2Z.inj.
  f_equal. rewrite <- (ascii_nat_embedding c), H.
  apply ascii_nat_embedding.
Qed.

End JsStringFacts.

(** ** The shape of an extension *)

Module NodePathFacts.
Import JsString NodePath JsStringFacts.

Ltac Z_tests :=
  repeat match goal with
  | H : (_ =? _) = true |- _ => apply Z.eqb_eq in H
  | H : (_ =? _) = false |- _ => apply Z.eqb_neq in H
  end.

Lemma scan_marks_ok path n st :
  marks_ok path n st ->
  let st' := scan path n st in
  startDot st' = -1 \/
  (0 <= startDot st' /\ startDot st' < end_ st' /\
   String.get (Z.to_nat (startDot st')) path = Some "."%char).
Proof.
  revert st. induction n as [|i IH]; intros st [Hend Hdot]; simpl.
  - destruct Hdot as [?|(? & ? & ?)]; [left|right]; auto with lia.
  - destruct (code_is (charCodeAt path i) CHAR_FORWARD_SLASH) eqn:Hslash.
    + destruct (matchedSlash st); simpl.
      * apply IH. unfold marks_ok. intuition lia.
      * destruct Hdot as [?|(? & ? & ?)]; [left|right]; auto with lia.
    + apply IH. unfold marks_ok.
      destruct (code_is (charCodeAt path i) CHAR_DOT) eqn:Hcode;
        [apply (code_is_char path i "."%char) in Hcode|];
        destruct (end_ st =? -1) eqn:He; simpl;
        destruct (startDot st =? -1) eqn:Hs; simpl;
        try (destruct (preDotState st =? 1); simpl);
        rewrite ?Nat2Z.id;
        Z_tests; intuition (auto with lia).
Qed.

(** What [extname] cuts is empty or begins with the period. *)
Lemma extname_shape path :
  extname path = "" \/ exists rest, extname path = String "." rest.
Proof.
  unfold extname.
  pose proof (scan_marks_ok path (String.length path) scan_init) as H.
  simpl in H. specialize (H ltac:(split; left; reflexivity)).
  set (st := scan path (String.length path) scan_init) in *.
  destruct (startDot st =? -1) eqn:Hs; [left; reflexivity|].
  apply Z.eqb_neq in Hs.
  destruct H as [?|(H0 & Hlt & Hget)]; [contradiction|].
  match goal with |- (if ?b then _ else _) = _ \/ _ => destruct b end;
    [left; reflexivity|].
  right. unfold slice.
  destruct (Z.to_nat (end_ st - startDot st)) as [|m] eqn:Hm; [lia|].
  rewrite (substring_get _ m _ _ Hget). eauto.
Qed.

Lemma lower_extname_shape path :
  toLowerCase (extname path) = "" \/
  exists rest, toLowerCase (extname path) = String "." rest.
Proof.
  destruct (extname_shape path) as [->|[rest ->]]; [left; reflexivity|].
  right. simpl. eauto.
Qed.

End NodePathFacts.

(** ** Classification of media files *)

Section Classification.
Import JsString NodePath JsStringFacts NodePathFacts.

Lemma lower_extension_not_inherited filePath :
  toLowerCase (extname filePath) ∉ Object_prototype_keys.
Proof.
  intros Hin. unfold Object_prototype_keys in Hin.
  destruct (lower_extname_shape filePath) as [Heq|[rest Heq]];
    rewrite Heq in Hin;
    repeat (apply elem_of_cons in Hin as [Hin|Hin]; [discriminate|]);
    now apply elem_of_nil in Hin.
Qed.

(** The keys of [mimeTypes] are the extensions of the classification. *)
Lemma mimeTypes_key key mime :
  mimeTypes !! key = Some mime ->
  exists e, (e, mime) ∈ classification /\ key = "." +:+ e.
Proof.
  unfold mimeTypes, classification. intros H.
  repeat (apply lookup_insert_Some in H as [[<- <-]|[_ H]];
          [eexists; split; [|reflexivity]; set_solver|]).
  now rewrite lookup_empty in H.
Qed.

Lemma mimeTypes_classification e mime :
  (e, mime) ∈ classification ->
  mimeTypes !! ("." +:+ e) = Some mime /\ toLowerCase ("." +:+ e) = "." +:+ e.
Proof.
  unfold classification. intros Hin.
  repeat (apply elem_of_cons in Hin as [Hin|Hin];
          [injection Hin as -> ->; split; vm_compute; reflexivity|]).
  now apply elem_of_nil in Hin.
Qed.

End Classification.

Example extname_examples :
  map NodePath.extname
    [ "index.html"; "index.coffee.md"; "index."; "index"; ".index";
      ".index.md"; "a/b.c/d"; "a.jpg/"; ".."; "a/.."; "x/.jpg"; "" ]
  = [ ".html"; ".md"; "."; ""; ""; ".md"; ""; ".jpg"; ""; ""; ""; "" ].
Proof. vm_compute. reflexivity. Qed.

Example getMimeType_examples :
  map getMimeType
    [ "photo.JPG"; "a/b/clip.Mov"; "pic.jpeg"; "notes.txt"; "constructor";
      ".png"; "x.PNG/"; "anim.gif"; "v.mp4" ]
  = [ JsStr "image/jpeg"; JsStr "video/quicktime"; JsStr "image/jpeg";
      JsNull; JsNull; JsNull; JsStr "image/png"; JsStr "image/gif";
      JsStr "video/mp4" ].
Proof. vm_compute. reflexivity. Qed.

(** C3. For every file path whose extension ([path.extname]) is one of jpg,
    jpeg, png, gif, mp4, mov in any letter case, [getMimeType] returns the
    MIME type the classification gives for it; for every path whose
    extension is none of them, it returns [null]. *)
Theorem getMimeType_classification (filePath : string) :
  (forall e mime,
      (e, mime) ∈ classification ->
      has_extension filePath e = true ->
      getMimeType filePath = JsStr mime) /\
  ((forall e mime,
      (e, mime) ∈ classification -> has_extension filePath e = false) ->
   getMimeType filePath = JsNull).
Proof.
  split.
  - intros e mime Hin Hext.
    apply JsStringFacts.same_letters_lower in Hext.
    destruct (mimeTypes_classification e mime Hin) as [Hget Hlow].
    unfold getMimeType, js_get. rewrite Hext, Hlow, Hget.
    unfold classification in Hin.
    repeat (apply elem_of_cons in Hin as [Hin|Hin];
            [injection Hin as -> ->; reflexivity|]).
    now apply elem_of_nil in Hin.
  - intros Hnone. unfold getMimeType, js_get.
    destruct (mimeTypes !! _) as [mime|] eqn:Hget.
    + apply mimeTypes_key in Hget as (e & Hin & Hkey).
      specialize (Hnone e mime Hin).
      unfold has_extension in Hnone.
      rewrite JsStringFacts.lower_same_letters in Hnone; [discriminate|].
      destruct (mimeTypes_classification e mime Hin) as [_ Hlow].
      now rewrite Hlow.
    + rewrite bool_decide_eq_false_2; [reflexivity|].
      apply lower_extension_not_inherited.
Qed.

(** ** Running the monad *)

Section Runs.
Context {P : Platform}.

Lemma trace_emit ev (s : State) :
  trace (emit ev s)
  = trace s ++ [ {| authenticated := isLoggedIn s; event := ev |} ].
Proof. reflexivity. Qed.

Lemma new_entries_app (s s' : State) d :
  trace s' = trace s ++ d -> new_entries s s' = d.
Proof.
  intros H. unfold new_entries. rewrite H. apply drop_app_length.
Qed.

Lemma new_events_app (s s' : State) d :
  trace s' = trace s ++ d -> new_events s s' = map event d.
Proof.
  intros H. unfold new_events. now rewrite (new_entries_app _ _ d H).
Qed.

Lemma new_entries_refl (s : State) : new_entries s s = [].
Proof. apply new_entries_app. now rewrite app_nil_r. Qed.

(** The run of a call of the platform. *)
Lemma run_extern {R} (op : World -> Completion R * World) ev (s : State) :
  extern op ev s
  = ((op (world s)).1,
     emit (ev (op (world s)).1) (with_world s (op (world s)).2)).
Proof. unfold extern. now destruct (op (world s)). Qed.

Lemma run_existsSync path (s : State) :
  existsSync path s
  = (Normal (fs_existsSync path (world s)).1,
     emit (ExistsSync path (fs_existsSync path (world s)).1)
       (with_world s (fs_existsSync path (world s)).2)).
Proof.
  unfold existsSync. rewrite run_extern.
  now destruct (fs_existsSync path (world s)).
Qed.

Lemma run_readFile path encoding (s : State) :
  readFile path encoding s
  = ((fs_readFile path encoding (world s)).1,
     emit (ReadFile path encoding (fs_readFile path encoding (world s)).1)
       (with_world s (fs_readFile path encoding (world s)).2)).
Proof. apply run_extern. Qed.

Lemma run_sendTweet text replyTo media (s : State) :
  sendTweet text replyTo media s
  = ((scraper_sendTweet text replyTo media (world s)).1,
     emit (SendTweet text replyTo media
             (scraper_sendTweet text replyTo media (world s)).1)
       (with_world s (scraper_sendTweet text replyTo media (world s)).2)).
Proof. apply run_extern. Qed.

End Runs.

(** The events of a run whose final trace is at hand. *)
Ltac new_trace :=
  erewrite new_events_app by
    (cbn [trace emit with_world isLoggedIn world];
     rewrite <- ?app_assoc; reflexivity).

(** ** Media preparation *)

Section Preparation.
Context {P : Platform}.

Lemma prepared_from_mono mediaFiles mediaFiles' evs evs' d :
  mediaFiles ⊆ mediaFiles' -> evs ⊆ evs' ->
  prepared_from mediaFiles evs d -> prepared_from mediaFiles' evs' d.
Proof.
  intros Hf He (fp & ? & ? & ? & ?). exists fp. auto.
Qed.

(** The loop: it keeps [isLoggedIn], only appends to the trace, and
    either returns the array extended with attachments read in this run,
    without any failed read, or throws what a failed read threw. *)
Lemma prepare_loop_run mediaFiles : forall mediaData (s : State) r s',
  prepare_loop mediaFiles mediaData s = (r, s') ->
  exists d,
    trace s' = trace s ++ d /\
    isLoggedIn s' = isLoggedIn s /\
    match r with
    | Normal l =>
        (exists added, l = mediaData ++ added /\
           Forall (prepared_from mediaFiles (map event d)) added) /\
        Forall (fun ev => is_failed_read ev = false) (map event d)
    | Throw e =>
        exists filePath, ReadFile filePath None (Throw e) ∈ map event d
    end.
Proof.
  induction mediaFiles as [|filePath rest IH]; intros mediaData s r s' Hrun;
    simpl in Hrun.
  - injection Hrun as <- <-. exists []. rewrite !app_nil_r.
    repeat split; auto. exists []. now rewrite app_nil_r.
  - unfold bind at 1 in Hrun. rewrite run_existsSync in Hrun.
    set (present := (fs_existsSync filePath (world s)).1) in Hrun.
    set (s1 := emit _ _) in Hrun.
    assert (Hs1 : trace s1 = trace s ++
              [ {| authenticated := isLoggedIn s;
                   event := ExistsSync filePath present |} ]) by reflexivity.
    assert (Hl1 : isLoggedIn s1 = isLoggedIn s) by reflexivity.
    clearbody s1. destruct present; simpl in Hrun.
    + (* the file exists: read it *)
      unfold bind at 1 in Hrun. rewrite run_readFile in Hrun.
      set (rd := (fs_readFile filePath None (world s1)).1) in Hrun.
      set (s2 := emit _ _) in Hrun.
      assert (Hs2 : trace s2 = trace s1 ++
                [ {| authenticated := isLoggedIn s1;
                     event := ReadFile filePath None rd |} ]) by reflexivity.
      assert (Hl2 : isLoggedIn s2 = isLoggedIn s1) by reflexivity.
      clearbody s2 rd. destruct rd as [content|e].
      * destruct (js_truthy (getMimeType filePath)) eqn:Htype;
          simpl in Hrun.
        -- apply IH in Hrun as (d & Htr & Hlog & Hres).
           eexists. split; [rewrite Htr, Hs2, Hs1, <- !app_assoc; reflexivity|].
           split; [congruence|].
           destruct r as [l|e].
           ++ destruct Hres as [(added & -> & Hadded) Hreads]. split.
              ** eexists. split; [rewrite <- app_assoc; reflexivity|].
                 simpl. constructor.
                 --- exists filePath. simpl. repeat split; auto; set_solver.
                 --- eapply Forall_impl; [exact Hadded|]. intros x.
                     apply prepared_from_mono; set_solver.
              ** simpl. repeat constructor. exact Hreads.
           ++ destruct Hres as [fp Hfp]. exists fp. set_solver.
        -- unfold bind at 1, console in Hrun. simpl in Hrun.
           apply IH in Hrun as (d & Htr & Hlog & Hres).
           rewrite trace_emit in Htr. simpl in Hlog.
           eexists. split; [rewrite Htr, Hs2, Hs1, <- !app_assoc; reflexivity|].
           split; [congruence|].
           destruct r as [l|e].
           ++ destruct Hres as [(added & -> & Hadded) Hreads]. split.
              ** exists added. split; [reflexivity|].
                 eapply Forall_impl; [exact Hadded|]. intros x.
                 apply prepared_from_mono; set_solver.
              ** simpl. repeat constructor. exact Hreads.
           ++ destruct Hres as [fp Hfp]. exists fp. set_solver.
      * injection Hrun as <- <-.
        eexists. split; [rewrite Hs2, Hs1, <- app_assoc; reflexivity|].
        split; [congruence|]. exists filePath. set_solver.
    + (* the file is missing: log and go on *)
      unfold bind at 1, console in Hrun. simpl in Hrun.
      apply IH in Hrun as (d & Htr & Hlog & Hres).
      rewrite trace_emit in Htr. simpl in Hlog.
      eexists. split; [rewrite Htr, Hs1, <- !app_assoc; reflexivity|].
      split; [congruence|].
      destruct r as [l|e].
      * destruct Hres as [(added & -> & Hadded) Hreads]. split.
        -- exists added. split; [reflexivity|].
           eapply Forall_impl; [exact Hadded|]. intros x.
           apply prepared_from_mono; set_solver.
        -- simpl. repeat constructor. exact Hreads.
      * destruct Hres as [fp Hfp]. exists fp. set_solver.
Qed.

End Preparation.

Section PreparationResults.
Context {P : Platform}.

(** The run of [prepareMediaData] from the run of its loop. *)
Lemma run_prepareMediaData mediaFiles (s : State) :
  prepareMediaData mediaFiles s
  = match prepare_loop mediaFiles [] s with
    | (Normal l, s') => (Normal l, s')
    | (Throw e, s') =>
        (Normal [],
         emit (Console LevelError [LStr "Media preparation error:"; LErr e]) s')
    end.
Proof.
  unfold prepareMediaData, try_catch.
  destruct (prepare_loop mediaFiles [] s) as [[l|e] s']; reflexivity.
Qed.

Lemma prepareMediaData_returns mediaFiles (s : State) :
  exists mediaData s', prepareMediaData mediaFiles s = (Normal mediaData, s').
Proof.
  rewrite run_prepareMediaData.
  destruct (prepare_loop mediaFiles [] s) as [[l|e] s']; eauto.
Qed.

(** C5. For every sequence of paths and every behaviour of the file
    system, [prepareMediaData] returns normally with a sequence of
    attachments (it never throws), leaves the session state as it was,
    and every attachment it returns comes from a path of the input whose
    file was read in this run and whose type is classified: a path that
    failed contributes nothing and no error is reported to the caller. *)
Theorem prepareMediaData_never_throws (mediaFiles : list string) (s : State) :
  exists mediaData s',
    prepareMediaData mediaFiles s = (Normal mediaData, s') /\
    isLoggedIn s' = isLoggedIn s /\
    Forall (prepared_from mediaFiles (new_events s s')) mediaData.
Proof.
  rewrite run_prepareMediaData.
  destruct (prepare_loop mediaFiles [] s) as [r s1] eqn:Hrun.
  apply prepare_loop_run in Hrun as (d & Htr & Hlog & Hres).
  destruct r as [l|e].
  - exists l, s1. repeat split; auto.
    destruct Hres as [(added & -> & Hadded) _]. simpl.
    now rewrite (new_events_app s s1 d Htr).
  - eexists [], _. repeat split; auto.
Qed.

(** C10. If reading any file of the input throws during the run,
    [prepareMediaData] returns the empty sequence: the attachments
    prepared from earlier paths are discarded with it. *)
Theorem prepareMediaData_read_failure (mediaFiles : list string) (s : State) :
  (exists ev,
      ev ∈ new_events s (prepareMediaData mediaFiles s).2 /\
      is_failed_read ev = true) ->
  (prepareMediaData mediaFiles s).1 = Normal [].
Proof.
  rewrite run_prepareMediaData.
  destruct (prepare_loop mediaFiles [] s) as [r s1] eqn:Hrun.
  apply prepare_loop_run in Hrun as (d & Htr & Hlog & Hres).
  destruct r as [l|e]; [|reflexivity].
  simpl. intros (ev & Hin & Hfail).
  rewrite (new_events_app s s1 d Htr) in Hin.
  destruct Hres as [_ Hreads].
  rewrite Forall_forall in Hreads. rewrite (Hreads ev Hin) in Hfail.
  discriminate.
Qed.

End PreparationResults.

(** ** Media preparation over files that stay as they are *)

Section StableFiles.
Context {P : Platform}.

(** The files while the run lasts, as far as the paths of [input] go:
    [files path] tells whether there is a file at [path] and what reading
    it gives.  The worlds in [stable] answer [existsSync] and [readFile]
    for these paths by it and stay in [stable]; the files at other paths
    are as they may. *)
Variable files : string -> option (Completion string).
Variable stable : World -> Prop.
Variable input : list string.

Hypothesis stable_existsSync : forall path w,
  path ∈ input -> stable w ->
  (fs_existsSync path w).1 = bool_decide (is_Some (files path)) /\
  stable (fs_existsSync path w).2.

Hypothesis stable_readFile : forall path r w,
  path ∈ input -> stable w -> files path = Some r ->
  (fs_readFile path None w).1 = r /\
  stable (fs_readFile path None w).2.

(** The loop over a part of the input: it throws what the first failed
    read throws, and otherwise returns the array extended by the
    attachments of the paths that exist and are classified. *)
Lemma prepare_loop_stable mediaFiles :
  mediaFiles ⊆ input ->
  forall mediaData (s : State),
    stable (world s) ->
    exists s' d,
      prepare_loop mediaFiles mediaData s
      = (match unreadable files mediaFiles with
         | None =>
             Normal (mediaData ++ omap (attachment (readable files)) mediaFiles)
         | Some e => Throw e
         end, s') /\
      trace s' = trace s ++ d /\
      List.filter is_error_log (map event d)
      = flat_map (skip_message (readable files))
          (before_unreadable files mediaFiles).
Proof.
  induction mediaFiles as [|filePath rest IH]; intros Hin mediaData s Hq; simpl.
  - exists s, []. rewrite !app_nil_r. auto.
  - assert (Hpath : filePath ∈ input) by set_solver.
    assert (Hrest : rest ⊆ input) by set_solver.
    specialize (IH Hrest).
    unfold bind at 1. rewrite run_existsSync.
    destruct (stable_existsSync filePath _ Hpath Hq) as [-> Hq1].
    set (s1 := emit (ExistsSync _ _) _).
    assert (Hw1 : stable (world s1)) by exact Hq1.
    assert (Ht1 : exists ev, trace s1 = trace s ++ [ev] /\
                             is_error_log (event ev) = false)
      by (eexists; split; reflexivity).
    destruct Ht1 as (ev1 & Ht1 & He1). clearbody s1. clear Hq1.
    unfold attachment at 1, skip_message at 1.
    change (readable files filePath)
      with (match files filePath with
            | Some (Normal data) => Some data
            | _ => None
            end).
    destruct (files filePath) as [[data|e]|] eqn:Hc.
    + (* the file exists and is read *)
      rewrite bool_decide_eq_true_2 by eauto.
      cbn [negb]. unfold bind at 1. rewrite run_readFile.
      destruct (stable_readFile filePath _ _ Hpath Hw1 Hc) as [Hrd Hq2].
      rewrite Hrd.
      set (s2 := emit (ReadFile _ _ _) _).
      assert (Hw2 : stable (world s2)) by exact Hq2.
      assert (Ht2 : exists ev, trace s2 = trace s1 ++ [ev] /\
                               is_error_log (event ev) = false)
        by (eexists; split; reflexivity).
      destruct Ht2 as (ev2 & Ht2 & He2). clearbody s2. clear Hq2.
      destruct (js_truthy (getMimeType filePath)) eqn:Htype; cbn [negb].
      * destruct (IH (mediaData ++
            [ {| data := data; mediaType := getMimeType filePath |} ]) s2 Hw2)
          as (s' & d & Hrun & Htr & Hlog).
        exists s', (ev1 :: ev2 :: d).
        split; [rewrite Hrun, <- app_assoc; reflexivity|]. split.
        -- rewrite Htr, Ht2, Ht1, <- !app_assoc. reflexivity.
        -- simpl. rewrite He1, He2. unfold readable at 1.
           rewrite Hc, Htype. exact Hlog.
      * unfold bind at 1, console.
        set (s3 := emit (Console _ _) s2).
        destruct (IH mediaData s3 Hw2) as (s' & d & Hrun & Htr & Hlog).
        exists s'. eexists. split; [exact Hrun|]. split.
        -- rewrite Htr. unfold s3. rewrite trace_emit, Ht2, Ht1.
           rewrite <- !app_assoc. reflexivity.
        -- simpl. rewrite He1, He2. unfold readable at 1.
           rewrite Hc, Htype. simpl. now rewrite Hlog.
    + (* the file exists and its read throws *)
      rewrite bool_decide_eq_true_2 by eauto.
      cbn [negb]. unfold bind at 1. rewrite run_readFile.
      destruct (stable_readFile filePath _ _ Hpath Hw1 Hc) as [Hrd _].
      rewrite Hrd. eexists.
      exists [ev1; {| authenticated := isLoggedIn s1;
                      event := ReadFile filePath None (Throw e) |}].
      split; [reflexivity|]. split.
      * cbn [trace emit with_world]. rewrite Ht1, <- app_assoc. reflexivity.
      * simpl. now rewrite He1.
    + (* there is no file *)
      rewrite bool_decide_eq_false_2 by (intros [? ?]; discriminate).
      cbn [negb]. unfold bind at 1, console.
      set (s3 := emit (Console _ _) s1).
      destruct (IH mediaData s3 Hw1) as (s' & d & Hrun & Htr & Hlog).
      exists s'. eexists. split; [exact Hrun|]. split.
      * rewrite Htr. unfold s3. rewrite trace_emit, Ht1.
        rewrite <- !app_assoc. reflexivity.
      * simpl. rewrite He1. unfold readable at 1. rewrite Hc.
        simpl. now rewrite Hlog.
Qed.


End StableFiles.

(** What [prepared] is, case by case. *)
Lemma unreadable_none files mediaFiles :
  (forall filePath e, filePath ∈ mediaFiles -> files filePath <> Some (Throw e)) ->
  unreadable files mediaFiles = None /\
  before_unreadable files mediaFiles = mediaFiles.
Proof.
  induction mediaFiles as [|filePath rest IH]; intros Hok; simpl; [auto|].
  destruct IH as [IH1 IH2]; [intros p e Hp; apply Hok; set_solver|].
  destruct (files filePath) as [[data|e]|] eqn:Hc.
  - now rewrite IH2.
  - exfalso. apply (Hok filePath e); [set_solver|exact Hc].
  - now rewrite IH2.
Qed.

Lemma prepared_readable files mediaFiles :
  (forall filePath e, filePath ∈ mediaFiles -> files filePath <> Some (Throw e)) ->
  prepared files mediaFiles = omap (attachment (readable files)) mediaFiles.
Proof.
  intros Hok. unfold prepared.
  now rewrite (proj1 (unreadable_none files mediaFiles Hok)).
Qed.

Lemma prepared_unreadable files mediaFiles filePath e :
  filePath ∈ mediaFiles -> files filePath = Some (Throw e) ->
  prepared files mediaFiles = [].
Proof.
  intros Hin Hc. unfold prepared.
  assert (Hsome : is_Some (unreadable files mediaFiles)).
  { induction mediaFiles as [|p rest IH]; [set_solver|]. simpl.
    destruct (decide (p = filePath)) as [->|Hne].
    - rewrite Hc. eauto.
    - destruct (files p) as [[data|e']|]; eauto; apply IH; set_solver. }
  now destruct Hsome as [e' ->].
Qed.

(** ** Posting and replying *)

Section Dispatch.
Context {P : Platform}.

(** C1. Once the session is ensured: with an empty list of media paths
    [post] is a text-only send and returns [true] when the client accepts
    it, whatever [prepareMediaData] would do (it is not called); with a
    list that is not empty from which the preparation yields no
    attachment, [post] is again a text-only send that returns [true]. *)
Theorem post_text_only (text : string) (mediaFiles : list string)
    (s s1 : State) :
  ensure_initialized s = (Normal tt, s1) ->
  (forall prepare,
      post_with prepare text [] s
      = text_only_send text [LStr "Text tweet sent:"; LStr text] s1) /\
  (forall s2,
      mediaFiles <> [] ->
      prepareMediaData mediaFiles s1 = (Normal [], s2) ->
      post text mediaFiles s
      = text_only_send text
          [LStr "Media preparation failed, sent as text-only tweet"] s2).
Proof.
  intros Hens. split.
  - intros prepare. unfold post_with, try_catch, text_only_send.
    unfold bind at 1. rewrite Hens. cbn [length Nat.eqb].
    unfold bind at 1. rewrite run_sendTweet.
    destruct (scraper_sendTweet text None None (world s1)).1; reflexivity.
  - intros s2 Hne Hprep. unfold post, post_with, try_catch, text_only_send.
    unfold bind at 1. rewrite Hens.
    destruct mediaFiles as [|filePath rest]; [contradiction|].
    cbn [length Nat.eqb].
    unfold bind at 1. rewrite Hprep. cbn [length Nat.ltb Nat.leb].
    unfold bind at 1. unfold bind at 1. rewrite run_sendTweet.
    destruct (scraper_sendTweet text None None (world s2)).1; reflexivity.
Qed.

(** C2. Once the session is ensured, [replyToTweet] prepares the media
    and then sends, to the client, exactly the attachments the preparation
    returned, whatever they are: an empty result is sent as the empty
    sequence, not turned into a text-only send. *)
Theorem replyToTweet_sends_prepared (tweetId text : string)
    (mediaFiles : list string) (s s1 : State) :
  ensure_initialized s = (Normal tt, s1) ->
  exists mediaData s2,
    prepareMediaData mediaFiles s1 = (Normal mediaData, s2) /\
    replyToTweet tweetId text mediaFiles s
    = reply_send tweetId text mediaData s2 /\
    List.filter is_send
      (new_events s2 (replyToTweet tweetId text mediaFiles s).2)
    = [ SendTweet text (Some tweetId) (Some mediaData)
          (scraper_sendTweet text (Some tweetId) (Some mediaData) (world s2)).1 ].
Proof.
  intros Hens.
  destruct (prepareMediaData_returns mediaFiles s1)
    as (mediaData & s2 & Hprep).
  exists mediaData, s2. split; [exact Hprep|].
  assert (Hrun : replyToTweet tweetId text mediaFiles s
                 = reply_send tweetId text mediaData s2).
  { unfold replyToTweet, replyToTweet_with, try_catch, reply_send.
    unfold bind at 1. rewrite Hens.
    unfold bind at 1. rewrite Hprep.
    unfold bind at 1. rewrite run_sendTweet.
    destruct (scraper_sendTweet text _ _ (world s2)).1; reflexivity. }
  split; [exact Hrun|].
  rewrite Hrun. unfold reply_send.
  destruct (scraper_sendTweet text _ _ (world s2)).1;
    cbn [snd]; erewrite new_events_app by
      (rewrite !trace_emit; cbn [trace with_world];
       rewrite <- !app_assoc; reflexivity);
    reflexivity.
Qed.

End Dispatch.

(** ** The cookie store *)

Section CookieStore.
Context {P : Platform}.

Lemma event_stamp b evs : map event (stamp b evs) = evs.
Proof.
  unfold stamp. induction evs as [|ev evs IH]; simpl; [|rewrite IH]; reflexivity.
Qed.

Lemma filter_not_null_parsed items :
  filter_not_null (map parsed_entry items) = omap valid_cookie items.
Proof.
  unfold filter_not_null, parsed_entry, valid_cookie.
  induction items as [|j items IH]; [reflexivity|].
  simpl in *. destruct (Cookie_fromJSON j) as [[c|]|e]; simpl;
    try f_equal; exact IH.
Qed.

(** Mapping the callback over the records never throws: a record whose
    parsing throws gives [null] and a warning, and nothing else changes. *)
Lemma run_array_map_parse_cookie items : forall s : State,
  array_map parse_cookie items s
  = (Normal (map parsed_entry items),
     {| isLoggedIn := isLoggedIn s; world := world s;
        trace := trace s ++ stamp (isLoggedIn s) (flat_map parse_warning items) |}).
Proof.
  induction items as [|j items IH]; intros s; simpl.
  - unfold ret. rewrite app_nil_r. now destruct s.
  - unfold bind at 1, parse_cookie, try_catch, of_completion.
    unfold parsed_entry at 1, parse_warning at 1.
    destruct (Cookie_fromJSON j) as [o|e].
    + unfold bind at 1. rewrite IH. reflexivity.
    + unfold bind at 1, console, ret. unfold bind at 1. rewrite IH.
      cbn [isLoggedIn world trace emit]. unfold stamp.
      now rewrite <- app_assoc.
Qed.

End CookieStore.

Section LoadCookies.
Context {P : Platform}.

Lemma loaded_cookies_app evs evs' :
  loaded_cookies (evs ++ evs') = loaded_cookies evs ++ loaded_cookies evs'.
Proof. apply flat_map_app. Qed.

Lemma loaded_cookies_warnings items :
  loaded_cookies (flat_map parse_warning items) = [].
Proof.
  induction items as [|j items IH]; simpl; [reflexivity|].
  rewrite loaded_cookies_app, IH, app_nil_r.
  unfold parse_warning. now destruct (Cookie_fromJSON j).
Qed.

Lemma filter_warnings items :
  List.filter is_warning (flat_map parse_warning items)
  = flat_map parse_warning items.
Proof.
  induction items as [|j items IH]; simpl; [reflexivity|].
  rewrite List.filter_app, IH. f_equal.
  unfold parse_warning. now destruct (Cookie_fromJSON j).
Qed.

Lemma loadCookies_returns (s : State) : (loadCookies s).1 = Normal tt.
Proof.
  unfold loadCookies, try_catch.
  match goal with
  | |- context [match ?body s with _ => _ end] =>
      destruct (body s) as [[[]|e] s']
  end; reflexivity.
Qed.

(** The run over a cookie file that holds an array of records. *)
Lemma loadCookies_array (s : State) text items :
  (fs_existsSync cookiePath (world s)).1 = true ->
  (fs_readFile cookiePath (Some "utf8")
     (fs_existsSync cookiePath (world s)).2).1 = Normal text ->
  JSON_parse text = Normal (JArray items) ->
  loaded_cookies (new_events s (loadCookies s).2) = omap valid_cookie items /\
  (omap valid_cookie items = [] -> isLoggedIn (loadCookies s).2 = false) /\
  List.filter is_warning (new_events s (loadCookies s).2)
  = flat_map parse_warning items.
Proof.
  intros Hex Hrd Hparse.
  destruct (loadCookies s) as [r s'] eqn:Hrun. cbn [snd].
  unfold loadCookies, try_catch in Hrun.
  unfold bind at 1 in Hrun. rewrite run_existsSync, Hex in Hrun.
  unfold bind at 1 in Hrun. rewrite run_readFile in Hrun.
  cbn [world emit with_world] in Hrun. rewrite Hrd in Hrun.
  unfold bind at 1, of_completion in Hrun. rewrite Hparse in Hrun.
  unfold bind at 1, cookiesJson_map in Hrun.
  rewrite run_array_map_parse_cookie in Hrun.
  rewrite filter_not_null_parsed in Hrun.
  cbn [isLoggedIn world trace emit with_world] in Hrun.
  destruct (omap valid_cookie items) as [|c cs] eqn:Hvalid.
  - cbn [length Nat.ltb Nat.leb] in Hrun.
    unfold bind at 1, console, set_isLoggedIn in Hrun.
    injection Hrun as <- <-. cbn [isLoggedIn]. new_trace.
    rewrite !map_app, event_stamp. cbn [map event].
    rewrite !loaded_cookies_app, !List.filter_app.
    rewrite loaded_cookies_warnings, filter_warnings.
    cbn. rewrite app_nil_r. auto.
  - cbn [length Nat.ltb Nat.leb] in Hrun.
    unfold bind at 1 in Hrun. rewrite run_extern in Hrun.
    cbn [isLoggedIn world trace emit with_world] in Hrun.
    destruct (scraper_setCookies (c :: cs) _) as [[[]|e] w3].
    + cbn [fst snd] in Hrun. unfold bind at 1 in Hrun.
      rewrite run_extern in Hrun.
      cbn [isLoggedIn world trace emit with_world] in Hrun.
      destruct (scraper_isLoggedIn w3) as [[live|e] w4]; cbn [fst snd] in Hrun;
        unfold bind, console, set_isLoggedIn in Hrun;
        injection Hrun as <- <-; cbn [isLoggedIn];
        new_trace;
        rewrite !map_app, event_stamp; cbn [map event];
        rewrite !loaded_cookies_app, !List.filter_app;
        rewrite loaded_cookies_warnings, filter_warnings;
        cbn; rewrite ?app_nil_r; repeat split; auto; discriminate.
    + cbn [fst snd] in Hrun. unfold bind, console, set_isLoggedIn in Hrun.
      injection Hrun as <- <-. cbn [isLoggedIn]. new_trace.
      rewrite !map_app, event_stamp. cbn [map event].
      rewrite !loaded_cookies_app, !List.filter_app.
      rewrite loaded_cookies_warnings, filter_warnings.
      cbn. rewrite ?app_nil_r. repeat split; auto.
Qed.

End LoadCookies.

Section LoadCookiesClaim.
Context {P : Platform}.

(** The run when no cookie file exists: nothing is loaded and the session
    state is not touched. *)
Lemma loadCookies_missing (s : State) :
  (fs_existsSync cookiePath (world s)).1 = false ->
  loaded_cookies (new_events s (loadCookies s).2) = [] /\
  isLoggedIn (loadCookies s).2 = isLoggedIn s.
Proof.
  intros Hex.
  destruct (loadCookies s) as [r s'] eqn:Hrun. cbn [snd].
  unfold loadCookies, try_catch in Hrun.
  unfold bind at 1 in Hrun. rewrite run_existsSync, Hex in Hrun.
  unfold console in Hrun. injection Hrun as <- <-.
  cbn [isLoggedIn emit with_world]. new_trace. auto.
Qed.

(** The run over a cookie file whose text is not a JSON document. *)
Lemma loadCookies_unparsable (s : State) text :
  (fs_existsSync cookiePath (world s)).1 = true ->
  (fs_readFile cookiePath (Some "utf8")
     (fs_existsSync cookiePath (world s)).2).1 = Normal text ->
  is_normal (JSON_parse text) = false ->
  loaded_cookies (new_events s (loadCookies s).2) = [] /\
  isLoggedIn (loadCookies s).2 = false.
Proof.
  intros Hex Hrd Hparse.
  destruct (loadCookies s) as [r s'] eqn:Hrun. cbn [snd].
  unfold loadCookies, try_catch in Hrun.
  unfold bind at 1 in Hrun. rewrite run_existsSync, Hex in Hrun.
  unfold bind at 1 in Hrun. rewrite run_readFile in Hrun.
  cbn [world emit with_world] in Hrun. rewrite Hrd in Hrun.
  unfold bind at 1, of_completion in Hrun.
  destruct (JSON_parse text) as [j|e]; [discriminate|].
  unfold bind, console, set_isLoggedIn in Hrun.
  injection Hrun as <- <-. cbn [isLoggedIn]. new_trace. auto.
Qed.

(** C6, as amended.  [loadCookies] never throws.  When the cookie file
    is missing it hands no cookie to the client and leaves the session
    state as it was (not authenticated, for a session that was not); when
    the file is empty, or holds an array without a valid record, it hands
    over none and sets the state to not authenticated; when the file holds
    an array of records, the client receives exactly the records
    [Cookie.fromJSON] makes a cookie of, in their order.  The other
    records are dropped: with a warning when [Cookie.fromJSON] throws on
    the record, and without any when it answers [null], so that the
    warnings printed are exactly those of the records whose parsing
    throws. *)
Theorem loadCookies_tolerant (s : State) :
  (loadCookies s).1 = Normal tt /\
  ((fs_existsSync cookiePath (world s)).1 = false ->
   loaded_cookies (new_events s (loadCookies s).2) = [] /\
   isLoggedIn (loadCookies s).2 = isLoggedIn s /\
   (isLoggedIn s = false -> isLoggedIn (loadCookies s).2 = false)) /\
  (forall text,
      (fs_existsSync cookiePath (world s)).1 = true ->
      (fs_readFile cookiePath (Some "utf8")
         (fs_existsSync cookiePath (world s)).2).1 = Normal text ->
      (text = "" ->
       loaded_cookies (new_events s (loadCookies s).2) = [] /\
       isLoggedIn (loadCookies s).2 = false) /\
      (forall items,
          JSON_parse text = Normal (JArray items) ->
          loaded_cookies (new_events s (loadCookies s).2)
          = omap valid_cookie items /\
          (omap valid_cookie items = [] ->
           isLoggedIn (loadCookies s).2 = false) /\
          List.filter is_warning (new_events s (loadCookies s).2)
          = flat_map parse_warning items)).
Proof.
  split; [apply loadCookies_returns|]. split.
  - intros Hex. destruct (loadCookies_missing s Hex) as [Hnone Hsame].
    repeat split; auto. congruence.
  - intros text Hex Hrd. split.
    + intros ->. apply (loadCookies_unparsable s ""); auto.
      apply JSON_parse_empty.
    + intros items Hparse. now apply (loadCookies_array s text items).
Qed.

End LoadCookiesClaim.

(** ** A program logic for the methods *)

Section Hoare.
Context {P : Platform}.

Lemma hoare_conseq {A} (Pre Pre' : State -> Prop) (m : M A)
    (Post Post' : Completion A -> State -> Prop) :
  (forall s, Pre' s -> Pre s) ->
  hoare Pre m Post ->
  (forall r s, Post r s -> Post' r s) ->
  hoare Pre' m Post'.
Proof. unfold hoare. auto. Qed.

Lemma hoare_ret {A} (a : A) (Post : Completion A -> State -> Prop) :
  hoare (Post (Normal a)) (ret a) Post.
Proof. intros s H. exact H. Qed.

Lemma hoare_throw {A} e (Post : Completion A -> State -> Prop) :
  hoare (Post (Throw e)) (throw e) Post.
Proof. intros s H. exact H. Qed.

Lemma hoare_bind {A B} (Pre : State -> Prop) (m : M A) (f : A -> M B)
    (Mid : Completion A -> State -> Prop)
    (Post : Completion B -> State -> Prop) :
  hoare Pre m Mid ->
  (forall a, hoare (Mid (Normal a)) (f a) Post) ->
  (forall e s, Mid (Throw e) s -> Post (Throw e) s) ->
  hoare Pre (bind m f) Post.
Proof.
  intros Hm Hf Hthrow s Hpre. specialize (Hm s Hpre). unfold bind.
  destruct (m s) as [[a|e] s1]; simpl in *.
  - now apply Hf.
  - now apply Hthrow.
Qed.

Lemma hoare_try_catch {A} (Pre : State -> Prop) (body : M A)
    (handler : Exn -> M A) (Mid Post : Completion A -> State -> Prop) :
  hoare Pre body Mid ->
  (forall a s, Mid (Normal a) s -> Post (Normal a) s) ->
  (forall e, hoare (Mid (Throw e)) (handler e) Post) ->
  hoare Pre (try_catch body handler) Post.
Proof.
  intros Hbody Hnormal Hhandler s Hpre. specialize (Hbody s Hpre).
  unfold try_catch. destruct (body s) as [[a|e] s1]; simpl in *.
  - now apply Hnormal.
  - now apply Hhandler.
Qed.

Lemma hoare_extern {R} (op : World -> Completion R * World) ev
    (Pre : State -> Prop) (Post : Completion R -> State -> Prop) :
  (forall s, Pre s ->
     Post (op (world s)).1
       (emit (ev (op (world s)).1) (with_world s (op (world s)).2))) ->
  hoare Pre (extern op ev) Post.
Proof. intros H s Hpre. rewrite run_extern. now apply H. Qed.

Lemma keeps_ret {A} I (a : A) : keeps I (ret a).
Proof. intros s H. exact H. Qed.

Lemma keeps_throw {A} I e : keeps I (throw (A := A) e).
Proof. intros s H. exact H. Qed.

Lemma keeps_of_completion {A} I (c : Completion A) : keeps I (of_completion c).
Proof. intros s H. exact H. Qed.

Lemma keeps_get_isLoggedIn I : keeps I get_isLoggedIn.
Proof. intros s H. exact H. Qed.

Lemma keeps_bind {A B} I (m : M A) (f : A -> M B) :
  keeps I m -> (forall a, keeps I (f a)) -> keeps I (bind m f).
Proof.
  intros Hm Hf. apply (hoare_bind I m f (fun _ => I)); auto.
Qed.

Lemma keeps_try_catch {A} I (body : M A) handler :
  keeps I body -> (forall e, keeps I (handler e)) ->
  keeps I (try_catch body handler).
Proof.
  intros Hb Hh. apply (hoare_try_catch I body handler (fun _ => I)); auto.
Qed.

Section Undisturbed.
Variable I : State -> Prop.
Hypothesis I_undisturbed : undisturbed I.

Lemma keeps_extern {R} (op : World -> Completion R * World) ev :
  (forall r, is_send (ev r) = false) -> keeps I (extern op ev).
Proof.
  intros Hev. apply hoare_extern. intros s Hs. now apply I_undisturbed.
Qed.

Lemma keeps_console level args : keeps I (console level args).
Proof.
  intros s Hs. unfold console. simpl.
  exact (I_undisturbed s (world s) (Console level args) Hs eq_refl).
Qed.

Lemma keeps_existsSync path : keeps I (existsSync path).
Proof. now apply keeps_extern. Qed.

Lemma keeps_readFile path encoding : keeps I (readFile path encoding).
Proof. now apply keeps_extern. Qed.

Lemma keeps_writeFile path content : keeps I (writeFile path content).
Proof. now apply keeps_extern. Qed.

Lemma keeps_saveCookies cookies : keeps I (saveCookies cookies).
Proof.
  apply keeps_try_catch.
  - apply keeps_bind; [apply keeps_writeFile|]. intros _. apply keeps_console.
  - intros e. apply keeps_console.
Qed.

Lemma keeps_array_map_parse_cookie items : keeps I (array_map parse_cookie items).
Proof.
  induction items as [|j items IH]; simpl; [apply keeps_ret|].
  apply keeps_bind.
  - apply keeps_try_catch; [apply keeps_of_completion|].
    intros e. apply keeps_bind; [apply keeps_console|].
    intros _. apply keeps_ret.
  - intros o. apply keeps_bind; [exact IH|]. intros l. apply keeps_ret.
Qed.

Lemma keeps_cookiesJson_map cookiesJson : keeps I (cookiesJson_map cookiesJson).
Proof.
  destruct cookiesJson; simpl; try apply keeps_throw.
  apply keeps_array_map_parse_cookie.
Qed.

Lemma keeps_prepare_loop mediaFiles :
  forall mediaData, keeps I (prepare_loop mediaFiles mediaData).
Proof.
  induction mediaFiles as [|filePath rest IH]; intros mediaData; simpl;
    [apply keeps_ret|].
  apply keeps_bind; [apply keeps_existsSync|]. intros present.
  destruct present; simpl.
  - apply keeps_bind; [apply keeps_readFile|]. intros data.
    destruct (js_truthy (getMimeType filePath)); simpl; [apply IH|].
    apply keeps_bind; [apply keeps_console|]. intros _. apply IH.
  - apply keeps_bind; [apply keeps_console|]. intros _. apply IH.
Qed.

Lemma keeps_prepareMediaData mediaFiles : keeps I (prepareMediaData mediaFiles).
Proof.
  apply keeps_try_catch; [apply keeps_prepare_loop|].
  intros e. apply keeps_bind; [apply keeps_console|].
  intros _. apply keeps_ret.
Qed.

End Undisturbed.

End Hoare.

(** ** The session guard *)

Section SessionGuard.
Context {P : Platform}.
Variable base : list Entry.
Variable b0 : bool.

#[local] Abbreviation guarded := (guarded b0).
#[local] Abbreviation confirmed := (confirmed b0).
#[local] Abbreviation inv_confirmed := (inv_confirmed base b0).
#[local] Abbreviation inv := (inv base b0).
#[local] Abbreviation inv_authenticated := (inv_authenticated base b0).

Lemma snoc_split {A} (d pre post : list A) x e :
  d ++ [x] = pre ++ e :: post ->
  (post = [] /\ pre = d /\ e = x) \/
  (exists post', post = post' ++ [x] /\ d = pre ++ e :: post').
Proof.
  destruct post as [|y post'] using rev_ind; intros H.
  - apply app_inj_tail in H as [-> ->]. auto.
  - right. exists post'.
    change (pre ++ e :: post' ++ [y]) with (pre ++ (e :: post') ++ [y]) in H.
    rewrite app_assoc in H. now apply app_inj_tail in H as [-> ->].
Qed.

Lemma guarded_nil : guarded [].
Proof. intros [|a pre] e post H; discriminate. Qed.

Lemma guarded_snoc_other d x :
  guarded d -> is_send (event x) = false -> guarded (d ++ [x]).
Proof.
  intros Hg Hx pre e post Heq He.
  apply snoc_split in Heq as [(-> & -> & ->)|(post' & -> & ->)].
  - congruence.
  - exact (Hg pre e post' eq_refl He).
Qed.

Lemma guarded_snoc_send d x :
  guarded d -> authenticated x = true -> confirmed d -> guarded (d ++ [x]).
Proof.
  intros Hg Hx Hc pre e post Heq He.
  apply snoc_split in Heq as [(-> & -> & ->)|(post' & -> & ->)].
  - split; [exact Hx|]. intros Hb. destruct Hc as [?|?]; [congruence|auto].
  - exact (Hg pre e post' eq_refl He).
Qed.

Lemma confirmed_snoc d x : confirmed d -> confirmed (d ++ [x]).
Proof.
  intros [?|(e' & Hin & He')]; [now left|right].
  exists e'. split; [set_solver|exact He'].
Qed.

Lemma inv_confirmed_inv s : inv_confirmed s -> inv s.
Proof. intros (d & ? & ? & ?). exists d. auto. Qed.

Lemma inv_undisturbed : undisturbed inv.
Proof.
  intros s w ev (d & Htr & Hg & Hc) Hev.
  exists (d ++ [ {| authenticated := isLoggedIn s; event := ev |} ]).
  split; [cbn; now rewrite Htr, app_assoc|].
  split; [now apply guarded_snoc_other|].
  intros Hl. apply confirmed_snoc. now apply Hc.
Qed.

Lemma inv_confirmed_undisturbed : undisturbed inv_confirmed.
Proof.
  intros s w ev (d & Htr & Hg & Hc) Hev.
  exists (d ++ [ {| authenticated := isLoggedIn s; event := ev |} ]).
  split; [cbn; now rewrite Htr, app_assoc|].
  split; [now apply guarded_snoc_other|now apply confirmed_snoc].
Qed.

Lemma inv_authenticated_undisturbed : undisturbed inv_authenticated.
Proof.
  intros s w ev [Hi Hl] Hev. split; [now apply inv_undisturbed|exact Hl].
Qed.

(** A call in which the platform confirms the session. *)
Lemma inv_confirming s w ev :
  inv s -> is_send ev = false -> confirms_session ev = true ->
  inv_confirmed (emit ev (with_world s w)).
Proof.
  intros (d & Htr & Hg & Hc) Hev Hconf.
  exists (d ++ [ {| authenticated := isLoggedIn s; event := ev |} ]).
  split; [cbn; now rewrite Htr, app_assoc|].
  split; [now apply guarded_snoc_other|].
  right. exists {| authenticated := isLoggedIn s; event := ev |}.
  split; [set_solver|exact Hconf].
Qed.

(** A send made with [isLoggedIn] true. *)
Lemma keeps_sendTweet text replyTo media :
  keeps inv_authenticated (sendTweet text replyTo media).
Proof.
  apply hoare_extern. intros s [(d & Htr & Hg & Hc) Hl]. split; [|exact Hl].
  eexists (d ++ [ {| authenticated := isLoggedIn s; event := _ |} ]).
  split; [cbn; now rewrite Htr, app_assoc|].
  split; [apply guarded_snoc_send; auto|].
  intros _. apply confirmed_snoc. auto.
Qed.

Lemma keeps_set_false : keeps inv (set_isLoggedIn false).
Proof.
  intros s (d & Htr & Hg & Hc). exists d. cbn.
  split; [exact Htr|]. split; [exact Hg|]. intros Hfalse. discriminate.
Qed.

Lemma hoare_set_confirmed b :
  hoare (fun s => inv s /\ (b = true -> inv_confirmed s))
    (set_isLoggedIn b) (fun _ => inv).
Proof.
  intros s [Hi Hc]. destruct b.
  - destruct (Hc eq_refl) as (d & Htr & Hg & Hd). exists d. cbn. auto.
  - now apply keeps_set_false.
Qed.

Lemma hoare_set_true :
  hoare inv_confirmed (set_isLoggedIn true) (fun _ => inv_authenticated).
Proof.
  intros s (d & Htr & Hg & Hd). split; [|reflexivity]. exists d. cbn. auto.
Qed.

End SessionGuard.

Section GuardedMethods.
Context {P : Platform}.
Variable base : list Entry.
Variable b0 : bool.

#[local] Abbreviation inv := (inv base b0).
#[local] Abbreviation inv_confirmed := (inv_confirmed base b0).
#[local] Abbreviation inv_authenticated := (inv_authenticated base b0).
#[local] Abbreviation session_ensured := (session_ensured base b0).

Lemma keeps_loadCookies : keeps inv loadCookies.
Proof.
  pose proof (inv_undisturbed base b0) as Hu.
  apply keeps_try_catch.
  - apply keeps_bind; [now apply keeps_existsSync|]. intros present.
    destruct present; [|now apply keeps_console].
    apply keeps_bind; [now apply keeps_readFile|]. intros cookiesData.
    apply keeps_bind; [apply keeps_of_completion|]. intros cookiesJson.
    apply keeps_bind; [now apply keeps_cookiesJson_map|]. intros parsed.
    cbv zeta. destruct (0 <? length (filter_not_null parsed))%nat.
    + apply keeps_bind; [now apply keeps_extern|]. intros _.
      apply (hoare_bind _ _ _
               (fun r s => inv s /\ (r = Normal true -> inv_confirmed s))).
      * apply hoare_extern. intros s Hs. split; [now apply Hu|].
        intros Hr. apply inv_confirming; auto. now rewrite Hr.
      * intros live.
        apply (hoare_bind _ _ _ (fun _ => inv)).
        -- eapply hoare_conseq; [|apply (hoare_set_confirmed base b0 live)|];
             cbn; [|auto].
           intros s [Hi Hc]. split; [exact Hi|]. intros ->. now apply Hc.
        -- intros _. now apply keeps_console.
        -- auto.
      * intros e s [Hi _]. exact Hi.
    + apply keeps_bind; [now apply keeps_console|]. intros _.
      apply keeps_set_false.
  - intros e. apply keeps_bind; [now apply keeps_console|]. intros _.
    apply keeps_set_false.
Qed.

Lemma hoare_login : hoare inv login session_ensured.
Proof.
  pose proof (inv_undisturbed base b0) as Hu.
  pose proof (inv_authenticated_undisturbed base b0) as Hua.
  apply (hoare_try_catch _ _ _ session_ensured).
  - apply (hoare_bind _ _ _
             (fun r s => inv s /\ (is_normal r = true -> inv_confirmed s))).
    + apply hoare_extern. intros s Hs. split; [now apply Hu|].
      intros Hr. apply inv_confirming; auto.
    + intros u.
      apply (hoare_bind _ _ _ (fun _ => inv_authenticated)).
      * eapply hoare_conseq; [|apply (hoare_set_true base b0)|]; cbn; [|auto].
        intros s [_ Hc]. now apply Hc.
      * intros _.
        apply (hoare_conseq inv_authenticated _ _ (fun _ => inv_authenticated));
          [auto| |intros r s [Hi Hl]; split; auto].
        apply keeps_bind; [now apply keeps_extern|]. intros cookies.
        apply keeps_bind; [now apply keeps_saveCookies|]. intros _.
        now apply keeps_console.
      * intros e s [Hi _]. split; [exact Hi|discriminate].
    + intros e s [Hi _]. split; [exact Hi|discriminate].
  - auto.
  - intros e.
    apply (hoare_bind _ _ _ (fun _ => inv)).
    + eapply hoare_conseq; [|apply (keeps_console inv Hu)|]; cbn; [|auto].
      intros s [Hi _]. exact Hi.
    + intros _ s Hi. split; [exact Hi|discriminate].
    + intros e' s Hi. split; [exact Hi|discriminate].
Qed.

Lemma hoare_initialize : hoare inv initialize session_ensured.
Proof.
  pose proof (inv_undisturbed base b0) as Hu.
  apply (hoare_try_catch _ _ _ session_ensured).
  - apply (hoare_bind _ _ _ (fun _ => inv));
      [apply keeps_loadCookies| |intros e s Hi; split; [exact Hi|discriminate]].
    intros _.
    apply (hoare_bind _ _ _
             (fun r s => inv s /\ r = Normal (isLoggedIn s))).
    + intros s Hs. split; [exact Hs|reflexivity].
    + intros logged. apply (hoare_bind _ _ _ session_ensured).
      * destruct logged; cbn [negb].
        -- intros s [Hi Hl]. injection Hl as Hl. split; auto.
        -- apply (hoare_bind _ _ _ (fun _ => inv)).
           ++ eapply hoare_conseq; [|apply (keeps_console inv Hu)|];
                cbn; [|auto].
              intros s [Hi _]. exact Hi.
           ++ intros _. apply hoare_login.
           ++ intros e s Hi. split; [exact Hi|discriminate].
      * intros u s [Hi Hl].
        split; [now apply (keeps_console inv Hu)|]. intros _. now apply Hl.
      * intros e s [Hi _]. split; [exact Hi|discriminate].
    + intros e s [Hi He]. discriminate.
  - auto.
  - intros e.
    apply (hoare_bind _ _ _ (fun _ => inv)).
    + eapply hoare_conseq; [|apply (keeps_console inv Hu)|]; cbn; [|auto].
      intros s [Hi _]. exact Hi.
    + intros _ s Hi. split; [exact Hi|discriminate].
    + intros e' s Hi. split; [exact Hi|discriminate].
Qed.

Lemma hoare_ensure_initialized : hoare inv ensure_initialized session_ensured.
Proof.
  intros s Hs. unfold ensure_initialized, bind, get_isLoggedIn.
  destruct (isLoggedIn s) eqn:Hl; cbn [negb].
  - split; [exact Hs|auto].
  - now apply hoare_initialize.
Qed.

(** What follows [ensure_initialized] in both operations keeps the
    invariant when it starts with the session there. *)
Lemma keeps_after_ensured {A} (rest : M A) label :
  keeps inv_authenticated rest ->
  keeps inv
    (try_catch (let* _ := ensure_initialized in rest)
       (fun error =>
          let* _ := console LevelError [LStr label; LErr error] in
          throw error)).
Proof.
  intros Hrest. pose proof (inv_undisturbed base b0) as Hu.
  apply keeps_try_catch.
  - apply (hoare_bind _ _ _ session_ensured);
      [apply hoare_ensure_initialized| |intros e s [Hi _]; exact Hi].
    intros u.
    apply (hoare_conseq inv_authenticated _ _ (fun _ => inv_authenticated));
      [|exact Hrest|intros r s [Hi _]; exact Hi].
    intros s [Hi Hl]. split; auto.
  - intros e. apply keeps_bind; [now apply keeps_console|].
    intros _. apply keeps_throw.
Qed.

Lemma keeps_post text mediaFiles : keeps inv (post text mediaFiles).
Proof.
  pose proof (inv_authenticated_undisturbed base b0) as Hua.
  apply keeps_after_ensured.
  destruct (length mediaFiles =? 0)%nat.
  - apply keeps_bind; [apply keeps_sendTweet|]. intros _.
    apply keeps_bind; [now apply keeps_console|]. intros _. apply keeps_ret.
  - apply keeps_bind; [now apply keeps_prepareMediaData|]. intros mediaData.
    apply keeps_bind; [|intros _; apply keeps_ret].
    destruct (0 <? length mediaData)%nat;
      (apply keeps_bind; [apply keeps_sendTweet|]); intros _;
      now apply keeps_console.
Qed.

Lemma keeps_replyToTweet tweetId text mediaFiles :
  keeps inv (replyToTweet tweetId text mediaFiles).
Proof.
  pose proof (inv_authenticated_undisturbed base b0) as Hua.
  apply keeps_after_ensured.
  apply keeps_bind; [now apply keeps_prepareMediaData|]. intros mediaData.
  apply keeps_bind; [apply keeps_sendTweet|]. intros _.
  apply keeps_bind; [now apply keeps_console|]. intros _. apply keeps_ret.
Qed.

End GuardedMethods.

Section SessionClaim.
Context {P : Platform}.

Lemma inv_start (s : State) : inv (trace s) (isLoggedIn s) s.
Proof.
  exists []. rewrite app_nil_r. split; [reflexivity|].
  split; [apply guarded_nil|]. intros Hl. now left.
Qed.

Lemma inv_session_guarded (s s' : State) :
  inv (trace s) (isLoggedIn s) s' -> session_guarded s s'.
Proof.
  intros (d & Htr & Hg & _) pre e post Heq He.
  rewrite (new_entries_app s s' d Htr) in Heq.
  exact (Hg pre e post Heq He).
Qed.

Lemma initialize_first_after_ensure {A} (rest : M A) label (s : State) :
  isLoggedIn s = false ->
  initialize_first label
    (try_catch (let* _ := ensure_initialized in rest)
       (fun error =>
          let* _ := console LevelError [LStr label; LErr error] in
          throw error)) s.
Proof.
  intros Hl. unfold initialize_first.
  pose proof (hoare_initialize (trace s) (isLoggedIn s) s (inv_start s))
    as [_ Hens].
  destruct (initialize s) as [[[]|e] s1] eqn:Hinit; cbn [fst snd] in Hens.
  - specialize (Hens eq_refl). split; [exact Hens|].
    unfold try_catch, ensure_initialized, get_isLoggedIn.
    unfold bind at 1. unfold bind at 1. rewrite Hl. cbn [negb].
    rewrite Hinit.
    unfold bind at 2. unfold bind at 2. rewrite Hens. reflexivity.
  - unfold try_catch, ensure_initialized, get_isLoggedIn.
    unfold bind at 1. unfold bind at 1. rewrite Hl. cbn [negb].
    rewrite Hinit. reflexivity.
Qed.

(** C8. [post] and [replyToTweet] never call the client's send while
    [isLoggedIn] is false: every send they make is made with it true and,
    when they are entered without a session, after the platform has
    confirmed one (by [isLoggedIn()] answering true over loaded cookies or
    by [login] returning).  Entered without a session, both start with
    [initialize], and send nothing when it throws. *)
Theorem send_requires_session (tweetId text : string)
    (mediaFiles : list string) (s : State) :
  session_guarded s (post text mediaFiles s).2 /\
  session_guarded s (replyToTweet tweetId text mediaFiles s).2 /\
  (isLoggedIn s = false ->
   initialize_first "Posting error:" (post text mediaFiles) s /\
   initialize_first "Reply error:" (replyToTweet tweetId text mediaFiles) s).
Proof.
  split; [|split].
  - apply inv_session_guarded, keeps_post, inv_start.
  - apply inv_session_guarded, keeps_replyToTweet, inv_start.
  - intros Hl. split; now apply initialize_first_after_ensure.
Qed.

End SessionClaim.

(** ** Saving the cookies *)

Section SaveCookies.
Context {P : Platform}.

Lemma run_saveCookies cookies (s : State) :
  saveCookies cookies s
  = let r := (fs_writeFile cookiePath (cookie_file_text cookies) (world s)).1 in
    let s1 :=
      emit (WriteFile cookiePath (cookie_file_text cookies) r)
        (with_world s
           (fs_writeFile cookiePath (cookie_file_text cookies) (world s)).2) in
    (Normal tt,
     match r with
     | Normal _ => emit (Console LevelLog [LStr "Cookies saved successfully"]) s1
     | Throw e =>
         emit (Console LevelError [LStr "Cookie saving error:"; LErr e]) s1
     end).
Proof.
  unfold saveCookies, try_catch, writeFile, cookie_file_text.
  unfold bind at 1. rewrite run_extern.
  destruct (fs_writeFile cookiePath _ (world s)).1; reflexivity.
Qed.

(** C7. [saveCookies] never throws: when writing the cookie file fails,
    the failure is printed and the method returns, with the session state
    as it was.  So [login] returns, with the session authenticated,
    whenever the client's [login] and [getCookies] return, and
    [initialize] returns whenever no session came from the cookie file and
    these two calls return: whether the cookie file could be written has
    no part in it. *)
Theorem saveCookies_failure_not_propagated (cookies : list Cookie) (s : State) :
  (saveCookies cookies s).1 = Normal tt /\
  isLoggedIn (saveCookies cookies s).2 = isLoggedIn s /\
  (forall e,
      (fs_writeFile cookiePath (cookie_file_text cookies) (world s)).1 = Throw e ->
      new_events s (saveCookies cookies s).2
      = [ WriteFile cookiePath (cookie_file_text cookies) (Throw e);
          Console LevelError [LStr "Cookie saving error:"; LErr e] ]) /\
  (forall w1 w2 issued,
      scraper_login (env "TWITTER_USERNAME") (env "TWITTER_PASSWORD")
        (env "TWITTER_EMAIL") (world s) = (Normal tt, w1) ->
      scraper_getCookies w1 = (Normal issued, w2) ->
      (login s).1 = Normal tt /\ isLoggedIn (login s).2 = true) /\
  (forall w1 w2 issued,
      isLoggedIn (loadCookies s).2 = false ->
      scraper_login (env "TWITTER_USERNAME") (env "TWITTER_PASSWORD")
        (env "TWITTER_EMAIL") (world (loadCookies s).2) = (Normal tt, w1) ->
      scraper_getCookies w1 = (Normal issued, w2) ->
      (initialize s).1 = Normal tt /\ isLoggedIn (initialize s).2 = true).
Proof.
  assert (Hlogin : forall (s0 : State) w1 w2 issued,
    scraper_login (env "TWITTER_USERNAME") (env "TWITTER_PASSWORD")
      (env "TWITTER_EMAIL") (world s0) = (Normal tt, w1) ->
    scraper_getCookies w1 = (Normal issued, w2) ->
    (login s0).1 = Normal tt /\ isLoggedIn (login s0).2 = true).
  { intros s0 w1 w2 issued Hl Hg.
    destruct (login s0) as [r s'] eqn:Hrun. cbn [fst snd].
    unfold login, try_catch in Hrun.
    unfold bind at 1 in Hrun. rewrite run_extern, Hl in Hrun.
    cbn [fst snd] in Hrun.
    unfold bind at 1, set_isLoggedIn in Hrun.
    unfold bind at 1 in Hrun. rewrite run_extern in Hrun.
    cbn [world emit with_world] in Hrun. rewrite Hg in Hrun.
    cbn [fst snd] in Hrun.
    unfold bind at 1 in Hrun. rewrite run_saveCookies in Hrun.
    cbv zeta in Hrun. unfold console in Hrun.
    injection Hrun as <- <-. split; [reflexivity|].
    now destruct (fs_writeFile _ _ _).1. }
  rewrite run_saveCookies. cbv zeta. cbn [fst snd].
  split; [reflexivity|]. split.
  { now destruct (fs_writeFile _ _ _).1. }
  split.
  { intros e He. rewrite He.
    erewrite new_events_app by
      (cbn [trace emit with_world]; rewrite <- ?app_assoc; reflexivity).
    reflexivity. }
  split; [apply Hlogin|].
  intros w1 w2 issued Hflag Hl Hg.
  destruct (initialize s) as [r s'] eqn:Hrun. cbn [fst snd].
  unfold initialize, try_catch in Hrun.
  unfold bind at 1 in Hrun.
  rewrite (surjective_pairing (loadCookies s)) in Hrun.
  rewrite loadCookies_returns in Hrun.
  unfold bind at 1, get_isLoggedIn in Hrun. rewrite Hflag in Hrun.
  cbn [negb] in Hrun.
  unfold bind at 1 in Hrun. unfold bind at 1, console in Hrun.
  set (s1 := emit _ (loadCookies s).2) in Hrun.
  destruct (Hlogin s1 w1 w2 issued Hl Hg) as [Hr Hf].
  rewrite (surjective_pairing (login s1)), Hr in Hrun.
  injection Hrun as <- <-. split; [reflexivity|exact Hf].
Qed.

End SaveCookies.

(** ** The command line *)

Section CommandLine.
Context {P : Platform}.

Lemma run_exit_with (op : M bool) (s : State) :
  (exit_with op s).1 = Normal (exit_code (op s).1).
Proof.
  unfold exit_with, try_catch, bind, exit, console, exit_code.
  now destruct (op s) as [[b|e] s'].
Qed.

Lemma js_not_false_inv (x : option string) :
  js_not x = false -> exists text, x = Some text /\ text <> "".
Proof.
  destruct x as [[|c text]|]; try discriminate.
  intros _. eexists. split; [reflexivity|discriminate].
Qed.

Lemma js_not_some text : text <> "" -> js_not (Some text) = false.
Proof. destruct text; [contradiction|reflexivity]. Qed.

Lemma lower_nonempty c text :
  JsString.toLowerCase c = text -> text <> "" -> c <> "".
Proof. intros <- H ->. now apply H. Qed.

(** C9. Run as the main module from the start of the process: without a
    command (it prints the usage), with a command that is neither tweet
    nor reply, or with tweet and no text, the run prints a message and
    exits with code 1, and has called neither the file system nor the
    client; with tweet and a text, or reply with an identifier and a text,
    it exits with 0 when the operation returns and with 1 when it
    throws. *)
Theorem main_exit_codes (argv : list string) (w : World) :
  let s := new_TwitterPost w in
  let command := argv !! 2%nat in
  let args := drop 3 argv in
  (js_not command = true -> main argv s = (Normal 1, refused usage w)) /\
  (forall c,
      command = Some c -> c <> "" ->
      JsString.toLowerCase c <> "tweet" ->
      JsString.toLowerCase c <> "reply" ->
      main argv s = (Normal 1, refused unknown_command w)) /\
  (forall c,
      command = Some c -> JsString.toLowerCase c = "tweet" ->
      js_not (args !! 0%nat) = true ->
      main argv s = (Normal 1, refused "Tweet text is required" w)) /\
  (forall c text,
      command = Some c -> JsString.toLowerCase c = "tweet" ->
      args !! 0%nat = Some text -> text <> "" ->
      (main argv s).1 = Normal (exit_code (post text (drop 1 args) s).1)) /\
  (forall c tweetId replyText,
      command = Some c -> JsString.toLowerCase c = "reply" ->
      args !! 0%nat = Some tweetId -> tweetId <> "" ->
      args !! 1%nat = Some replyText -> replyText <> "" ->
      (main argv s).1
      = Normal (exit_code (replyToTweet tweetId replyText (drop 2 args) s).1)).
Proof.
  intros s command args. unfold main. fold command. fold args.
  split; [|split; [|split; [|split]]].
  - intros ->. reflexivity.
  - intros c -> Hc Ht Hr. rewrite (js_not_some c Hc). cbn [default].
    unfold bind at 1, set_isLoggedIn.
    rewrite (bool_decide_eq_false_2 (JsString.toLowerCase c = "tweet"))
      by exact Ht.
    rewrite (bool_decide_eq_false_2 (JsString.toLowerCase c = "reply"))
      by exact Hr.
    reflexivity.
  - intros c -> Ht Htext.
    rewrite (js_not_some c) by (eapply lower_nonempty; [exact Ht|discriminate]).
    cbn [default]. unfold bind at 1, set_isLoggedIn.
    rewrite bool_decide_eq_true_2 by exact Ht. rewrite Htext.
    reflexivity.
  - intros c text -> Ht Htext Hne.
    rewrite (js_not_some c) by (eapply lower_nonempty; [exact Ht|discriminate]).
    cbn [default]. unfold bind at 1, set_isLoggedIn.
    rewrite bool_decide_eq_true_2 by exact Ht.
    rewrite Htext, (js_not_some text Hne). cbn [default].
    rewrite run_exit_with. reflexivity.
  - intros c tweetId replyText -> Hr Hid Hne1 Htext Hne2.
    rewrite (js_not_some c) by (eapply lower_nonempty; [exact Hr|discriminate]).
    cbn [default]. unfold bind at 1, set_isLoggedIn.
    rewrite (bool_decide_eq_false_2 (JsString.toLowerCase c = "tweet"))
      by (rewrite Hr; discriminate).
    rewrite bool_decide_eq_true_2 by exact Hr.
    rewrite Hid, Htext, (js_not_some tweetId Hne1), (js_not_some replyText Hne2).
    cbn [default orb]. rewrite run_exit_with. reflexivity.
Qed.

End CommandLine.

(** ** The methods on the stand-in platform *)

Section OnTheStandIn.
Import Sim.

(** The stand-in answers by what the files are and does not change
    them. *)
Lemma has_files_existsSync documents fs (input : list string) :
  forall path w,
    path ∈ input -> has_files fs w ->
    (fs_existsSync (Platform := platform documents) path w).1
    = bool_decide (is_Some (outcome_of fs path)) /\
    has_files fs (fs_existsSync (Platform := platform documents) path w).2.
Proof.
  intros path w _ Hw. split; [|exact Hw].
  cbn. unfold outcome_of. rewrite Hw.
  destruct (node_at fs path) as [[c|]|].
  - rewrite bool_decide_eq_true_2; eauto.
  - rewrite bool_decide_eq_true_2; eauto.
  - rewrite bool_decide_eq_false_2; auto; intros [? ?]; discriminate.
Qed.

Lemma has_files_readFile documents fs (input : list string) :
  forall path r w,
    path ∈ input -> has_files fs w -> outcome_of fs path = Some r ->
    (fs_readFile (Platform := platform documents) path None w).1 = r /\
    has_files fs (fs_readFile (Platform := platform documents) path None w).2.
Proof.
  intros path r w _ Hw Hc. cbn. unfold sim_readFile, outcome_of in *.
  rewrite Hw. destruct (node_at fs path) as [[c|]|]; try discriminate;
    injection Hc as <-; (split; [reflexivity|exact Hw]).
Qed.

(** Witness of C1: on a first run, [post] of a text without media, and
    with a media file that is missing, is a text-only send that returns
    [true]. *)
Lemma post_text_only_witness :
  let s := fresh [] [] in
  let s1 := (ensure_initialized s).2 in
  ensure_initialized s = (Normal tt, s1) /\
  (forall prepare,
      post_with prepare "hello" [] s
      = text_only_send "hello" [LStr "Text tweet sent:"; LStr "hello"] s1) /\
  (post "hello" ["missing.jpg"] s).1 = Normal true /\
  List.filter is_send (new_events s (post "hello" ["missing.jpg"] s).2)
  = [SendTweet "hello" None None (Normal tt)].
Proof.
  intros s s1.
  assert (Hens : ensure_initialized s = (Normal tt, s1))
    by (vm_compute; reflexivity).
  destruct (post_text_only "hello" ["missing.jpg"] s s1 Hens) as [Hempty Hnone].
  split; [exact Hens|]. split; [exact Hempty|].
  rewrite (Hnone (prepareMediaData ["missing.jpg"] s1).2
             ltac:(discriminate) ltac:(vm_compute; reflexivity)).
  split; vm_compute; reflexivity.
Defined.

(** Witness of C2: a reply without media is sent with the empty sequence
    of attachments. *)
Lemma replyToTweet_sends_prepared_witness :
  let s := fresh [] [] in
  let s1 := (ensure_initialized s).2 in
  ensure_initialized s = (Normal tt, s1) /\
  exists s2,
    prepareMediaData [] s1 = (Normal [], s2) /\
    replyToTweet "12" "hi" [] s = reply_send "12" "hi" [] s2 /\
    List.filter is_send (new_events s2 (replyToTweet "12" "hi" [] s).2)
    = [ SendTweet "hi" (Some "12") (Some []) (Normal tt) ].
Proof.
  intros s s1.
  assert (Hens : ensure_initialized s = (Normal tt, s1))
    by (vm_compute; reflexivity).
  split; [exact Hens|].
  destruct (replyToTweet_sends_prepared "12" "hi" [] s s1 Hens)
    as (mediaData & s2 & Hprep & Hrun & Hsend).
  assert (Hs2 : prepareMediaData [] s1 = (Normal [], s1)) by reflexivity.
  rewrite Hs2 in Hprep. injection Hprep as <- <-.
  exists s1. split; [exact Hs2|]. split; [exact Hrun|].
  rewrite Hsend. vm_compute. reflexivity.
Defined.



(** Witness of C10: the picture is read, the directory cannot be, and
    nothing is returned. *)
Lemma prepareMediaData_read_failure_witness :
  let s := fresh [] picture_and_directory in
  let s' := (prepareMediaData ["exists.png"; "d.png"] s).2 in
  ReadFile "exists.png" None (Normal "PNG") ∈ new_events s s' /\
  (exists ev, ev ∈ new_events s s' /\ is_failed_read ev = true) /\
  (prepareMediaData ["exists.png"; "d.png"] s).1 = Normal [].
Proof.
  intros s s'.
  assert (Hread : ReadFile "exists.png" None (Normal "PNG") ∈ new_events s s')
    by (vm_compute; repeat constructor).
  assert (Hfail : exists ev, ev ∈ new_events s s' /\ is_failed_read ev = true).
  { exists (ReadFile "d.png" None (Throw (JsError "Error" "EISDIR"))).
    split; [vm_compute; repeat constructor|reflexivity]. }
  split; [exact Hread|]. split; [exact Hfail|].
  exact (prepareMediaData_read_failure ["exists.png"; "d.png"] s Hfail).
Defined.

(** Witness of C6: without a cookie file nothing is loaded and the session
    stays unauthenticated; of a valid record and one that is no cookie
    exactly the valid one is loaded, and no warning is printed. *)
Lemma loadCookies_tolerant_witness :
  let s0 := fresh [] [] in
  let s := fresh cookie_documents with_cookie_file in
  (loaded_cookies (new_events s0 (loadCookies s0).2) = [] /\
   isLoggedIn (loadCookies s0).2 = false) /\
  loaded_cookies (new_events s (loadCookies s).2) = [("auth_token", "abc")] /\
  List.filter is_warning (new_events s (loadCookies s).2) = [].
Proof.
  intros s0 s. split.
  - destruct (loadCookies_tolerant s0) as (_ & Hmissing & _).
    destruct (Hmissing eq_refl) as (Hnone & _ & Hfalse).
    split; [exact Hnone|exact (Hfalse eq_refl)].
  - destruct (loadCookies_tolerant s) as (_ & _ & Hpresent).
    destruct (Hpresent cookie_text eq_refl eq_refl) as [_ Harray].
    destruct (Harray _ eq_refl) as (Hloaded & _ & Hwarn).
    split; [exact Hloaded|exact Hwarn].
Defined.

(** C6 as it was claimed fails: the second record of the file is
    malformed, [Cookie.fromJSON] makes no cookie of it, and it is dropped
    without a warning: the run prints none. *)
Lemma loadCookies_drops_without_warning :
  JSON_parse (Platform := platform cookie_documents) cookie_text
  = Normal (JArray [ JObject [("key", JString "auth_token");
                              ("value", JString "abc")];
                     JString "junk" ]) /\
  valid_cookie (P := platform cookie_documents) (JString "junk") = None /\
  loaded_cookies
    (new_events (fresh cookie_documents with_cookie_file)
       (loadCookies (fresh cookie_documents with_cookie_file)).2)
  = [("auth_token", "abc")] /\
  List.filter is_warning
    (new_events (fresh cookie_documents with_cookie_file)
       (loadCookies (fresh cookie_documents with_cookie_file)).2)
  = [].
Proof. repeat split; vm_compute; reflexivity. Qed.

(** A record on which [Cookie.fromJSON] throws: the string [null].  It
    is dropped with a warning. *)
Example loadCookies_warns_of_null_text :
  let s := fresh null_documents with_null_file in
  loaded_cookies (new_events s (loadCookies s).2) = [("auth_token", "abc")] /\
  List.filter is_warning (new_events s (loadCookies s).2)
  = [ Console LevelWarn
        [LStr "Failed to parse cookie:";
         LErr (JsError "TypeError" "Cannot read properties of null")] ].
Proof. vm_compute. split; reflexivity. Qed.

(** The cookie file cannot be written (its path is a directory), and the
    first [post] logs in, fails to save the cookies, and sends. *)
Example post_survives_failed_save :
  let s := fresh [] cookie_path_blocked in
  (post "hello" [] s).1 = Normal true /\
  List.filter (fun ev => is_send ev || is_error_log ev)
    (new_events s (post "hello" [] s).2)
  = [ Console LevelError
        [LStr "Cookie loading error:"; LErr (JsError "Error" "EISDIR")];
      Console LevelError
        [LStr "Cookie saving error:"; LErr (JsError "Error" "EISDIR")];
      SendTweet "hello" None None (Normal tt) ].
Proof. vm_compute. split; reflexivity. Qed.

(** The trace of a first reply with a picture and a missing file: the
    session is confirmed by the login, and the send comes after it, with
    [isLoggedIn] true and the one attachment prepared. *)
Example replyToTweet_trace :
  let s := fresh [] one_picture in
  List.filter (fun e => is_send (event e) || confirms_session (event e))
    (new_entries s
       (replyToTweet "12" "hi" ["exists.png"; "missing.xyz"] s).2)
  = [ {| authenticated := false;
         event := Login (Some "secret") (Some "secret") (Some "secret")
                    (Normal tt) |};
      {| authenticated := true;
         event := SendTweet "hi" (Some "12")
                    (Some [ {| data := "PNG"; mediaType := JsStr "image/png" |} ])
                    (Normal tt) |} ].
Proof. vm_compute. reflexivity. Qed.

Example main_examples :
  map (fun argv => (main (P := platform []) argv (fresh [] [])).1)
    [ ["node"; "autoPost.js"];
      ["node"; "autoPost.js"; ""];
      ["node"; "autoPost.js"; "retweet"; "hello"];
      ["node"; "autoPost.js"; "tweet"];
      ["node"; "autoPost.js"; "reply"; "12"];
      ["node"; "autoPost.js"; "TWEET"; "hello"];
      ["node"; "autoPost.js"; "reply"; "12"; "hi"; "missing.jpg"] ]
  = [ Normal 1; Normal 1; Normal 1; Normal 1; Normal 1; Normal 0; Normal 0 ] /\
  (main (P := platform []) ["node"; "autoPost.js"; "tweet"; "hello"]
     (new_TwitterPost (P := platform []) refusing_send)).1 = Normal 1.
Proof. vm_compute. split; reflexivity. Qed.

End OnTheStandIn.

(** * Further properties *)

(** ** Runs that make only some calls *)

Section OnlySince.
Context {P : Platform}.
Variable allowed : Event -> bool.
Variable base : list Entry.

#[local] Abbreviation only := (only_since allowed base).

Lemma only_emit (s : State) w ev :
  only s -> allowed ev = true -> only (emit ev (with_world s w)).
Proof.
  intros (d & Htr & Hall) Hev.
  exists (d ++ [ {| authenticated := isLoggedIn s; event := ev |} ]).
  split; [cbn; now rewrite Htr, app_assoc|].
  apply Forall_app. split; [exact Hall|]. repeat constructor. exact Hev.
Qed.

Lemma only_extern {R} (op : World -> Completion R * World) ev :
  (forall r, allowed (ev r) = true) -> keeps only (extern op ev).
Proof.
  intros Hev. apply hoare_extern. intros s Hs. now apply only_emit.
Qed.

Lemma only_console level args :
  allowed (Console level args) = true -> keeps only (console level args).
Proof.
  intros Hev s Hs. unfold console. simpl.
  exact (only_emit s (world s) (Console level args) Hs Hev).
Qed.

Lemma only_set_isLoggedIn b : keeps only (set_isLoggedIn b).
Proof. intros s (d & Htr & Hall). exists d. cbn. auto. Qed.

Lemma only_prepare_loop all mediaFiles :
  (forall ev, media_event all ev = true -> allowed ev = true) ->
  mediaFiles ⊆ all ->
  forall mediaData, keeps only (prepare_loop mediaFiles mediaData).
Proof.
  intros Hall. induction mediaFiles as [|filePath rest IH];
    intros Hsub mediaData; simpl; [apply keeps_ret|].
  assert (Hin : filePath ∈ all) by set_solver.
  assert (Hrest : rest ⊆ all) by set_solver.
  apply keeps_bind.
  { apply only_extern. intros r. apply Hall. cbn.
    now apply bool_decide_eq_true_2. }
  intros present. destruct present; simpl.
  - apply keeps_bind.
    { apply only_extern. intros r. apply Hall. cbn.
      now apply bool_decide_eq_true_2. }
    intros data.
    destruct (js_truthy (getMimeType filePath)); simpl; [now apply IH|].
    apply keeps_bind; [apply only_console; now apply Hall|].
    intros _. now apply IH.
  - apply keeps_bind; [apply only_console; now apply Hall|].
    intros _. now apply IH.
Qed.

Lemma only_prepareMediaData mediaFiles :
  (forall ev, media_event mediaFiles ev = true -> allowed ev = true) ->
  keeps only (prepareMediaData mediaFiles).
Proof.
  intros Hall. apply keeps_try_catch.
  - now apply (only_prepare_loop mediaFiles mediaFiles).
  - intros e. apply keeps_bind; [apply only_console; now apply Hall|].
    intros _. apply keeps_ret.
Qed.

Lemma only_array_map_parse_cookie items :
  (forall ev, load_event ev = true -> allowed ev = true) ->
  keeps only (array_map parse_cookie items).
Proof.
  intros Hall. induction items as [|j items IH]; simpl; [apply keeps_ret|].
  apply keeps_bind.
  - apply keeps_try_catch; [apply keeps_of_completion|].
    intros e. apply keeps_bind; [apply only_console; now apply Hall|].
    intros _. apply keeps_ret.
  - intros o. apply keeps_bind; [exact IH|]. intros l. apply keeps_ret.
Qed.

Lemma only_loadCookies :
  (forall ev, load_event ev = true -> allowed ev = true) ->
  keeps only loadCookies.
Proof.
  intros Hall.
  assert (Hcon : forall level args, keeps only (console level args))
    by (intros; apply only_console; now apply Hall).
  apply keeps_try_catch.
  - apply keeps_bind.
    { apply only_extern. intros r. apply Hall. cbn.
      now apply bool_decide_eq_true_2. }
    intros present. destruct present; [|apply Hcon].
    apply keeps_bind.
    { apply only_extern. intros r. apply Hall. cbn.
      now apply bool_decide_eq_true_2. }
    intros cookiesData.
    apply keeps_bind; [apply keeps_of_completion|]. intros cookiesJson.
    apply keeps_bind.
    { destruct cookiesJson; simpl; try apply keeps_throw.
      now apply only_array_map_parse_cookie. }
    intros parsed. cbv zeta.
    destruct (0 <? length (filter_not_null parsed))%nat.
    + apply keeps_bind; [apply only_extern; intros r; now apply Hall|].
      intros _.
      apply keeps_bind; [apply only_extern; intros r; now apply Hall|].
      intros live.
      apply keeps_bind; [apply only_set_isLoggedIn|]. intros _. apply Hcon.
    + apply keeps_bind; [apply Hcon|]. intros _. apply only_set_isLoggedIn.
  - intros e. apply keeps_bind; [apply Hcon|]. intros _.
    apply only_set_isLoggedIn.
Qed.

Lemma only_saveCookies cookies :
  (forall ev, login_event ev = true -> allowed ev = true) ->
  keeps only (saveCookies cookies).
Proof.
  intros Hall. apply keeps_try_catch.
  - apply keeps_bind.
    + apply only_extern. intros r. apply Hall. cbn.
      now apply bool_decide_eq_true_2.
    + intros _. apply only_console. now apply Hall.
  - intros e. apply only_console. now apply Hall.
Qed.

Lemma only_login :
  (forall ev, login_event ev = true -> allowed ev = true) ->
  keeps only login.
Proof.
  intros Hall. apply keeps_try_catch.
  - apply keeps_bind; [apply only_extern; intros r; now apply Hall|].
    intros _. apply keeps_bind; [apply only_set_isLoggedIn|]. intros _.
    apply keeps_bind; [apply only_extern; intros r; now apply Hall|].
    intros cookies. apply keeps_bind; [now apply only_saveCookies|].
    intros _. apply only_console. now apply Hall.
  - intros e. apply keeps_bind; [apply only_console; now apply Hall|].
    intros _. apply keeps_throw.
Qed.

Lemma only_initialize :
  (forall ev, session_event ev = true -> allowed ev = true) ->
  keeps only initialize.
Proof.
  intros Hall.
  assert (Hload : forall ev, load_event ev = true -> allowed ev = true).
  { intros ev Hev. apply Hall. unfold session_event. now rewrite Hev. }
  assert (Hlogin : forall ev, login_event ev = true -> allowed ev = true).
  { intros ev Hev. apply Hall. unfold session_event. rewrite Hev.
    apply orb_true_r. }
  assert (Hcon : forall level args, keeps only (console level args))
    by (intros; apply only_console; now apply Hall).
  apply keeps_try_catch.
  - apply keeps_bind; [now apply only_loadCookies|]. intros _.
    apply keeps_bind; [apply keeps_get_isLoggedIn|]. intros logged.
    apply keeps_bind; [|intros _; apply Hcon].
    destruct logged; cbn [negb]; [apply keeps_ret|].
    apply keeps_bind; [apply Hcon|]. intros _. now apply only_login.
  - intros e. apply keeps_bind; [apply Hcon|]. intros _. apply keeps_throw.
Qed.

Lemma only_ensure_initialized :
  (forall ev, session_event ev = true -> allowed ev = true) ->
  keeps only ensure_initialized.
Proof.
  intros Hall. apply keeps_bind; [apply keeps_get_isLoggedIn|].
  intros logged. destruct logged; cbn [negb]; [apply keeps_ret|].
  now apply only_initialize.
Qed.

Lemma only_post text mediaFiles :
  (forall ev, operation_event mediaFiles ev = true -> allowed ev = true) ->
  keeps only (post text mediaFiles).
Proof.
  intros Hall.
  assert (Hsession : forall ev, session_event ev = true -> allowed ev = true).
  { intros ev Hev. apply Hall. unfold operation_event. now rewrite Hev. }
  assert (Hmedia : forall ev,
             media_event mediaFiles ev = true -> allowed ev = true).
  { intros ev Hev. apply Hall. unfold operation_event. rewrite Hev.
    now rewrite orb_true_r. }
  assert (Hsend : forall text replyTo media,
             keeps only (sendTweet text replyTo media)).
  { intros. apply only_extern. intros r. apply Hall. unfold operation_event.
    apply orb_true_r. }
  assert (Hcon : forall level args, keeps only (console level args))
    by (intros; apply only_console; now apply Hsession).
  apply keeps_try_catch.
  - apply keeps_bind; [now apply only_ensure_initialized|]. intros _.
    destruct (length mediaFiles =? 0)%nat.
    + apply keeps_bind; [apply Hsend|]. intros _.
      apply keeps_bind; [apply Hcon|]. intros _. apply keeps_ret.
    + apply keeps_bind; [now apply only_prepareMediaData|]. intros mediaData.
      apply keeps_bind; [|intros _; apply keeps_ret].
      destruct (0 <? length mediaData)%nat;
        (apply keeps_bind; [apply Hsend|]); intros _; apply Hcon.
  - intros e. apply keeps_bind; [apply Hcon|]. intros _. apply keeps_throw.
Qed.

Lemma only_replyToTweet tweetId text mediaFiles :
  (forall ev, operation_event mediaFiles ev = true -> allowed ev = true) ->
  keeps only (replyToTweet tweetId text mediaFiles).
Proof.
  intros Hall.
  assert (Hsession : forall ev, session_event ev = true -> allowed ev = true).
  { intros ev Hev. apply Hall. unfold operation_event. now rewrite Hev. }
  assert (Hmedia : forall ev,
             media_event mediaFiles ev = true -> allowed ev = true).
  { intros ev Hev. apply Hall. unfold operation_event. rewrite Hev.
    now rewrite orb_true_r. }
  assert (Hcon : forall level args, keeps only (console level args))
    by (intros; apply only_console; now apply Hsession).
  apply keeps_try_catch.
  - apply keeps_bind; [now apply only_ensure_initialized|]. intros _.
    apply keeps_bind; [now apply only_prepareMediaData|]. intros mediaData.
    apply keeps_bind.
    { apply only_extern. intros r. apply Hall. unfold operation_event.
      apply orb_true_r. }
    intros _. apply keeps_bind; [apply Hcon|]. intros _. apply keeps_ret.
  - intros e. apply keeps_bind; [apply Hcon|]. intros _. apply keeps_throw.
Qed.

End OnlySince.

Section OnlyEvents.
Context {P : Platform}.

Lemma only_start allowed (s : State) : only_since allowed (trace s) s.
Proof. exists []. rewrite app_nil_r. auto. Qed.

(** From the invariant to the events of the run. *)
Lemma only_new_events allowed (s s' : State) :
  only_since allowed (trace s) s' ->
  Forall (fun ev => allowed ev = true) (new_events s s').
Proof.
  intros (d & Htr & Hall). rewrite (new_events_app s s' d Htr).
  now apply Forall_map.
Qed.

Lemma only_run {A} allowed (m : M A) (s : State) :
  keeps (only_since allowed (trace s)) m ->
  Forall (fun ev => allowed ev = true) (new_events s (m s).2) /\
  exists d, trace (m s).2 = trace s ++ d.
Proof.
  intros Hk. pose proof (Hk s (only_start allowed s)) as Hs.
  split; [now apply only_new_events|].
  destruct Hs as (d & Htr & _). eauto.
Qed.

End OnlyEvents.

(** ** The runs of the operations *)

Section OperationRuns.
Context {P : Platform}.

Lemma ensure_authenticated (s : State) :
  isLoggedIn s = true -> ensure_initialized s = (Normal tt, s).
Proof.
  intros Hl. unfold ensure_initialized, bind, get_isLoggedIn.
  now rewrite Hl.
Qed.

(** An operation goes on after [ensure_initialized] as from the state it
    left, and throws what it threw. *)
Lemma operation_resumes {A} (rest : M A) label (s : State) :
  let op :=
    try_catch (let* _ := ensure_initialized in rest)
      (fun error =>
         let* _ := console LevelError [LStr label; LErr error] in
         throw error) in
  match ensure_initialized s with
  | (Normal _, s1) => isLoggedIn s1 = true /\ op s = op s1
  | (Throw e, s1) =>
      op s = (Throw e, emit (Console LevelError [LStr label; LErr e]) s1)
  end.
Proof.
  intros op. destruct (isLoggedIn s) eqn:Hl.
  - rewrite (ensure_authenticated s Hl). auto.
  - pose proof (initialize_first_after_ensure rest label s Hl) as H.
    unfold initialize_first in H. fold op in H.
    assert (He : ensure_initialized s = initialize s).
    { unfold ensure_initialized, bind, get_isLoggedIn. now rewrite Hl. }
    rewrite He. exact H.
Qed.

Lemma run_post_authenticated text mediaFiles (s : State) :
  isLoggedIn s = true ->
  post text mediaFiles s
  = match mediaFiles with
    | [] => text_only_send text [LStr "Text tweet sent:"; LStr text] s
    | _ :: _ =>
        match prepareMediaData mediaFiles s with
        | (Normal [], s2) =>
            text_only_send text
              [LStr "Media preparation failed, sent as text-only tweet"] s2
        | (Normal (d :: l), s2) => media_send text (d :: l) s2
        | (Throw e, s2) =>
            (Throw e,
             emit (Console LevelError [LStr "Posting error:"; LErr e]) s2)
        end
    end.
Proof.
  intros Hl. unfold post, post_with, try_catch.
  unfold bind at 1. rewrite (ensure_authenticated s Hl).
  destruct mediaFiles as [|filePath rest]; cbn [length Nat.eqb].
  - unfold text_only_send. unfold bind at 1. rewrite run_sendTweet.
    destruct (scraper_sendTweet text None None (world s)).1; reflexivity.
  - unfold bind at 1.
    destruct (prepareMediaData (filePath :: rest) s) as [[[|d l]|e] s2];
      [| |reflexivity].
    + cbn [length Nat.ltb Nat.leb]. unfold text_only_send.
      unfold bind at 1. unfold bind at 1. rewrite run_sendTweet.
      destruct (scraper_sendTweet text None None (world s2)).1; reflexivity.
    + cbn [length Nat.ltb Nat.leb]. unfold media_send.
      unfold bind at 1. unfold bind at 1. rewrite run_sendTweet.
      destruct (scraper_sendTweet text None _ (world s2)).1; reflexivity.
Qed.

Lemma run_replyToTweet_authenticated tweetId text mediaFiles (s : State) :
  isLoggedIn s = true ->
  replyToTweet tweetId text mediaFiles s
  = match prepareMediaData mediaFiles s with
    | (Normal mediaData, s2) => reply_send tweetId text mediaData s2
    | (Throw e, s2) =>
        (Throw e, emit (Console LevelError [LStr "Reply error:"; LErr e]) s2)
    end.
Proof.
  intros Hl. unfold replyToTweet, replyToTweet_with, try_catch.
  unfold bind at 1. rewrite (ensure_authenticated s Hl).
  unfold bind at 1.
  destruct (prepareMediaData mediaFiles s) as [[mediaData|e] s2];
    [|reflexivity].
  unfold reply_send. unfold bind at 1. rewrite run_sendTweet.
  destruct (scraper_sendTweet text _ _ (world s2)).1; reflexivity.
Qed.

Lemma session_event_no_send ev : session_event ev = true -> is_send ev = false.
Proof. now destruct ev. Qed.

Lemma media_event_no_send mediaFiles ev :
  media_event mediaFiles ev = true -> is_send ev = false.
Proof. now destruct ev. Qed.

(** [ensure_initialized] and [prepareMediaData] send nothing. *)
Lemma ensure_initialized_no_send (s : State) :
  exists d,
    trace (ensure_initialized s).2 = trace s ++ d /\
    List.filter is_send (map event d) = [].
Proof.
  pose proof (only_ensure_initialized (fun ev => negb (is_send ev)) (trace s))
    as Hk.
  destruct (Hk ltac:(intros ev Hev;
                     now apply negb_true_iff, session_event_no_send)
              s (only_start _ s)) as (d & Htr & Hall).
  exists d. split; [exact Htr|].
  clear Htr. induction Hall as [|e d He _ IH]; [reflexivity|].
  cbn. apply negb_true_iff in He. now rewrite He.
Qed.

Lemma prepareMediaData_no_send mediaFiles (s : State) :
  exists d,
    trace (prepareMediaData mediaFiles s).2 = trace s ++ d /\
    List.filter is_send (map event d) = [].
Proof.
  pose proof (only_prepareMediaData (fun ev => negb (is_send ev)) (trace s)
                mediaFiles) as Hk.
  destruct (Hk ltac:(intros ev Hev;
                     now apply negb_true_iff,
                       (media_event_no_send mediaFiles))
              s (only_start _ s)) as (d & Htr & Hall).
  exists d. split; [exact Htr|].
  clear Htr. induction Hall as [|e d He _ IH]; [reflexivity|].
  cbn. apply negb_true_iff in He. now rewrite He.
Qed.

(** One send after entries without a send. *)
Lemma sends_once_after (text : string) replyTo media (s s2 : State) d :
  trace s2 = trace s ++ d ->
  List.filter is_send (map event d) = [] ->
  isLoggedIn s2 = true ->
  let r := (scraper_sendTweet text replyTo media (world s2)).1 in
  let s3 :=
    emit (SendTweet text replyTo media r)
      (with_world s2 (scraper_sendTweet text replyTo media (world s2)).2) in
  forall okLog errLog,
    sends_once text replyTo s
      match r with
      | Normal _ => (Normal true, emit (Console LevelLog okLog) s3)
      | Throw e => (Throw e, emit (Console LevelError (errLog e)) s3)
      end.
Proof.
  intros Htr Hnone Hl r s3 okLog errLog. unfold sends_once.
  assert (Hev : forall ev,
    List.filter is_send (new_events s (emit ev s3))
    = SendTweet text replyTo media r :: List.filter is_send [ev]).
  { intros ev. erewrite new_events_app
      by (unfold s3; cbn [trace emit with_world];
          rewrite Htr, <- !app_assoc; reflexivity).
    rewrite map_app, List.filter_app, Hnone. reflexivity. }
  destruct r as [[]|e]; cbn [fst snd].
  - split; [reflexivity|]. split; [exact Hl|].
    exists media. now rewrite Hev.
  - right. exists media. now rewrite Hev.
Qed.

End OperationRuns.

Section SendsOnce.
Context {P : Platform}.

Lemma post_resumes text mediaFiles (s : State) :
  match ensure_initialized s with
  | (Normal _, s1) =>
      isLoggedIn s1 = true /\ post text mediaFiles s = post text mediaFiles s1
  | (Throw e, s1) =>
      post text mediaFiles s
      = (Throw e, emit (Console LevelError [LStr "Posting error:"; LErr e]) s1)
  end.
Proof. exact (operation_resumes _ "Posting error:" s). Qed.

Lemma replyToTweet_resumes tweetId text mediaFiles (s : State) :
  match ensure_initialized s with
  | (Normal _, s1) =>
      isLoggedIn s1 = true /\
      replyToTweet tweetId text mediaFiles s
      = replyToTweet tweetId text mediaFiles s1
  | (Throw e, s1) =>
      replyToTweet tweetId text mediaFiles s
      = (Throw e, emit (Console LevelError [LStr "Reply error:"; LErr e]) s1)
  end.
Proof. exact (operation_resumes _ "Reply error:" s). Qed.

Lemma prepareMediaData_keeps_isLoggedIn mediaFiles (s : State) :
  isLoggedIn (prepareMediaData mediaFiles s).2 = isLoggedIn s.
Proof.
  apply (keeps_prepareMediaData (fun s' => isLoggedIn s' = isLoggedIn s));
    [|reflexivity].
  intros s' w ev H _. exact H.
Qed.

Lemma no_send_after (s s2 : State) d ev :
  trace s2 = trace s ++ d ->
  List.filter is_send (map event d) = [] ->
  is_send ev = false ->
  List.filter is_send (new_events s (emit ev s2)) = [].
Proof.
  intros Htr Hnone Hev.
  erewrite new_events_app
    by (cbn [trace emit]; rewrite Htr, <- !app_assoc; reflexivity).
  rewrite map_app, List.filter_app, Hnone. cbn. now rewrite Hev.
Qed.

Lemma sends_once_post text mediaFiles (s : State) :
  sends_once text None s (post text mediaFiles s).
Proof.
  destruct (ensure_initialized_no_send s) as (d1 & Htr1 & Hn1).
  pose proof (post_resumes text mediaFiles s) as Hres.
  destruct (ensure_initialized s) as [[u|e] s1]; cbn [snd] in Htr1.
  - destruct Hres as [Hl1 ->]. rewrite (run_post_authenticated _ _ _ Hl1).
    destruct mediaFiles as [|filePath rest].
    + exact (sends_once_after text None None s s1 d1 Htr1 Hn1 Hl1 _
               (fun e => [LStr "Posting error:"; LErr e])).
    + destruct (prepareMediaData_no_send (filePath :: rest) s1)
        as (d2 & Htr2 & Hn2).
      pose proof (prepareMediaData_keeps_isLoggedIn (filePath :: rest) s1)
        as Hl2.
      destruct (prepareMediaData (filePath :: rest) s1) as [r s2].
      cbn [snd] in Htr2, Hl2. rewrite Hl1 in Hl2.
      assert (Htr : trace s2 = trace s ++ (d1 ++ d2))
        by (now rewrite Htr2, Htr1, app_assoc).
      assert (Hn : List.filter is_send (map event (d1 ++ d2)) = [])
        by (now rewrite map_app, List.filter_app, Hn1, Hn2).
      destruct r as [[|d l]|e].
      * exact (sends_once_after text None None s s2 _ Htr Hn Hl2 _
                 (fun e => [LStr "Posting error:"; LErr e])).
      * exact (sends_once_after text None (Some (d :: l)) s s2 _ Htr Hn Hl2 _
                 (fun e => [LStr "Posting error:"; LErr e])).
      * left. cbn [snd]. now apply (no_send_after s s2 (d1 ++ d2)).
  - rewrite Hres. left. cbn [snd]. now apply (no_send_after s s1 d1).
Qed.

Lemma sends_once_replyToTweet tweetId text mediaFiles (s : State) :
  sends_once text (Some tweetId) s (replyToTweet tweetId text mediaFiles s).
Proof.
  destruct (ensure_initialized_no_send s) as (d1 & Htr1 & Hn1).
  pose proof (replyToTweet_resumes tweetId text mediaFiles s) as Hres.
  destruct (ensure_initialized s) as [[u|e] s1]; cbn [snd] in Htr1.
  - destruct Hres as [Hl1 ->].
    rewrite (run_replyToTweet_authenticated _ _ _ _ Hl1).
    destruct (prepareMediaData_no_send mediaFiles s1) as (d2 & Htr2 & Hn2).
    pose proof (prepareMediaData_keeps_isLoggedIn mediaFiles s1) as Hl2.
    destruct (prepareMediaData mediaFiles s1) as [r s2].
    cbn [snd] in Htr2, Hl2. rewrite Hl1 in Hl2.
    assert (Htr : trace s2 = trace s ++ (d1 ++ d2))
      by (now rewrite Htr2, Htr1, app_assoc).
    assert (Hn : List.filter is_send (map event (d1 ++ d2)) = [])
      by (now rewrite map_app, List.filter_app, Hn1, Hn2).
    destruct r as [mediaData|e].
    + exact (sends_once_after text (Some tweetId) (Some mediaData) s s2 _
               Htr Hn Hl2 _ (fun e => [LStr "Reply error:"; LErr e])).
    + left. cbn [snd]. now apply (no_send_after s s2 (d1 ++ d2)).
  - rewrite Hres. left. cbn [snd]. now apply (no_send_after s s1 d1).
Qed.

(** X1. [post] and [replyToTweet] call the client's send at most once:
    when the operation returns, it returns [true], the session is there,
    and exactly one send was made, which the client accepted; when it
    throws, either nothing was sent or the one send made threw that very
    error.  The send is for the text given, without a reply target in
    [post] and with the identifier given in [replyToTweet]. *)
Theorem operations_send_once (tweetId text : string)
    (mediaFiles : list string) (s : State) :
  sends_once text None s (post text mediaFiles s) /\
  sends_once text (Some tweetId) s (replyToTweet tweetId text mediaFiles s).
Proof.
  split; [apply sends_once_post|apply sends_once_replyToTweet].
Qed.

End SendsOnce.

(** ** What the methods call *)

Section Calls.
Context {P : Platform}.

(** X2. [prepareMediaData] touches nothing but the paths it is given: it
    only tests their existence, reads them, and prints errors.  It writes
    no file and does not call the client. *)
Theorem prepareMediaData_touches_only_its_paths (mediaFiles : list string)
    (s : State) :
  Forall (fun ev => media_event mediaFiles ev = true)
    (new_events s (prepareMediaData mediaFiles s).2).
Proof.
  apply only_new_events.
  apply (only_prepareMediaData (media_event mediaFiles) (trace s) mediaFiles);
    [auto|apply only_start].
Qed.

(** X3. [initialize] only tests and reads the cookie file, hands cookies
    to the client, asks it for the session, logs in, asks for the cookies,
    writes the cookie file and prints: it never sends, and it touches no
    file but the cookie file. *)
Theorem initialize_makes_only_session_calls (s : State) :
  Forall (fun ev => session_event ev = true) (new_events s (initialize s).2).
Proof.
  apply only_new_events.
  apply (only_initialize session_event (trace s)); [auto|apply only_start].
Qed.

Lemma operation_event_write mediaFiles p content r :
  operation_event mediaFiles (WriteFile p content r) = true -> p = cookiePath.
Proof.
  unfold operation_event, session_event. cbn.
  rewrite !orb_false_r. now intros H%bool_decide_eq_true.
Qed.

(** X4. [post] and [replyToTweet] make only the calls of the session, the
    calls of the media preparation over the paths given, and sends: the
    only file they ever write is the cookie file. *)
Theorem operations_make_only_their_calls (tweetId text : string)
    (mediaFiles : list string) (s : State) :
  let after_post := new_events s (post text mediaFiles s).2 in
  let after_reply := new_events s (replyToTweet tweetId text mediaFiles s).2 in
  Forall (fun ev => operation_event mediaFiles ev = true) after_post /\
  Forall (fun ev => operation_event mediaFiles ev = true) after_reply /\
  (forall p content r,
      WriteFile p content r ∈ after_post \/ WriteFile p content r ∈ after_reply ->
      p = cookiePath).
Proof.
  intros after_post after_reply.
  assert (Hpost : Forall (fun ev => operation_event mediaFiles ev = true)
                    after_post).
  { apply only_new_events.
    apply (only_post (operation_event mediaFiles) (trace s)); [auto|].
    apply only_start. }
  assert (Hreply : Forall (fun ev => operation_event mediaFiles ev = true)
                     after_reply).
  { apply only_new_events.
    apply (only_replyToTweet (operation_event mediaFiles) (trace s)); [auto|].
    apply only_start. }
  split; [exact Hpost|]. split; [exact Hreply|].
  intros p content r [Hin|Hin];
    [rewrite Forall_forall in Hpost; apply Hpost in Hin
    |rewrite Forall_forall in Hreply; apply Hreply in Hin];
    exact (operation_event_write mediaFiles p content r Hin).
Qed.

Lemma only_authenticated {A} allowed base (rest : M A) handler (s : State) :
  keeps (only_since allowed base) (try_catch rest handler) ->
  only_since allowed base s -> isLoggedIn s = true ->
  only_since allowed base
    (try_catch (let* _ := ensure_initialized in rest) handler s).2.
Proof.
  intros Hk Hs Hl. unfold try_catch at 1. unfold bind at 1.
  rewrite (ensure_authenticated s Hl). exact (Hk s Hs).
Qed.

Lemma direct_calls (tweetId text : string) (mediaFiles : list string)
    (s : State) :
  isLoggedIn s = true ->
  let direct ev := media_event mediaFiles ev || is_send ev || is_print ev in
  Forall (fun ev => direct ev = true) (new_events s (post text mediaFiles s).2) /\
  Forall (fun ev => direct ev = true)
    (new_events s (replyToTweet tweetId text mediaFiles s).2).
Proof.
  intros Hl direct.
  assert (Hmedia : forall ev, media_event mediaFiles ev = true -> direct ev = true).
  { intros ev Hev. unfold direct. now rewrite Hev. }
  assert (Hsend : forall text replyTo media,
    keeps (only_since direct (trace s)) (sendTweet text replyTo media)).
  { intros. apply only_extern. intros r. reflexivity. }
  assert (Hcon : forall level args,
    keeps (only_since direct (trace s)) (console level args)).
  { intros. apply only_console. unfold direct. cbn. apply orb_true_r. }
  split; apply only_new_events.
  - apply only_authenticated; [|apply only_start|exact Hl].
    apply keeps_try_catch.
    + destruct (length mediaFiles =? 0)%nat.
      * apply keeps_bind; [apply Hsend|]. intros _.
        apply keeps_bind; [apply Hcon|]. intros _. apply keeps_ret.
      * apply keeps_bind; [now apply only_prepareMediaData|].
        intros mediaData.
        apply keeps_bind; [|intros _; apply keeps_ret].
        destruct (0 <? length mediaData)%nat;
          (apply keeps_bind; [apply Hsend|]); intros _; apply Hcon.
    + intros e. apply keeps_bind; [apply Hcon|]. intros _. apply keeps_throw.
  - apply only_authenticated; [|apply only_start|exact Hl].
    apply keeps_try_catch.
    + apply keeps_bind; [now apply only_prepareMediaData|]. intros mediaData.
      apply keeps_bind; [apply Hsend|]. intros _.
      apply keeps_bind; [apply Hcon|]. intros _. apply keeps_ret.
    + intros e. apply keeps_bind; [apply Hcon|]. intros _. apply keeps_throw.
Qed.

(** X5. With the session there, [post] and [replyToTweet] do not
    initialize: they make only the calls of the media preparation, the
    send, and prints. *)
Theorem authenticated_operations_skip_initialize (tweetId text : string)
    (mediaFiles : list string) (s : State) :
  isLoggedIn s = true ->
  let direct ev := media_event mediaFiles ev || is_send ev || is_print ev in
  Forall (fun ev => direct ev = true) (new_events s (post text mediaFiles s).2) /\
  Forall (fun ev => direct ev = true)
    (new_events s (replyToTweet tweetId text mediaFiles s).2).
Proof. exact (direct_calls tweetId text mediaFiles s). Qed.

End Calls.

(** ** Logging in *)

Section LoggingIn.
Context {P : Platform}.

Lemma run_login_refused (s : State) e :
  (login_call (world s)).1 = Throw e ->
  login s
  = (Throw e,
     emit (Console LevelError [LStr "Login error:"; LErr e])
       (emit (login_event_of (Throw e))
          (with_world s (login_call (world s)).2))).
Proof.
  intros Hl. unfold login, try_catch.
  unfold bind at 1. rewrite run_extern. fold login_call. rewrite Hl.
  reflexivity.
Qed.

(** X6. When the client refuses the login, [login] prints the error and
    throws it: the session state is as it was, and the client is not asked
    for cookies and no file is written. *)
Theorem login_refused (s : State) (e : Exn) :
  (login_call (world s)).1 = Throw e ->
  (login s).1 = Throw e /\
  isLoggedIn (login s).2 = isLoggedIn s /\
  new_events s (login s).2
  = [ login_event_of (Throw e);
      Console LevelError [LStr "Login error:"; LErr e] ].
Proof.
  intros Hl. rewrite (run_login_refused s e Hl). cbn [fst snd].
  split; [reflexivity|]. split; [reflexivity|].
  new_trace. reflexivity.
Qed.

(** X7. When the client has logged in and then fails to give its cookies,
    [login] prints the error and throws it, with [isLoggedIn] left true
    and no cookie file written. *)
Theorem login_without_cookies (s : State) (w1 w2 : World) (e : Exn) :
  login_call (world s) = (Normal tt, w1) ->
  scraper_getCookies w1 = (Throw e, w2) ->
  (login s).1 = Throw e /\
  isLoggedIn (login s).2 = true /\
  new_events s (login s).2
  = [ login_event_of (Normal tt); GetCookies (Throw e);
      Console LevelError [LStr "Login error:"; LErr e] ].
Proof.
  intros Hl Hg.
  destruct (login s) as [r s'] eqn:Hrun. cbn [fst snd].
  unfold login, try_catch in Hrun.
  unfold bind at 1 in Hrun. rewrite run_extern in Hrun.
  fold login_call in Hrun. rewrite Hl in Hrun. cbn [fst snd] in Hrun.
  unfold bind at 1, set_isLoggedIn in Hrun.
  unfold bind at 1 in Hrun. rewrite run_extern in Hrun.
  cbn [world emit with_world] in Hrun. rewrite Hg in Hrun.
  cbn [fst snd] in Hrun. unfold bind, console, throw in Hrun.
  injection Hrun as <- <-.
  split; [reflexivity|]. split; [reflexivity|].
  new_trace. reflexivity.
Qed.

(** X8. When the client logs in and gives its cookies, [login] writes
    exactly these cookies to the cookie file, after it has set
    [isLoggedIn], prints whether they were saved, and returns. *)
Theorem login_saves_issued_cookies (s : State) (w1 w2 : World)
    (issued : list Cookie) :
  login_call (world s) = (Normal tt, w1) ->
  scraper_getCookies w1 = (Normal issued, w2) ->
  let written := (fs_writeFile cookiePath (cookie_file_text issued) w2).1 in
  (login s).1 = Normal tt /\
  isLoggedIn (login s).2 = true /\
  new_events s (login s).2
  = [ login_event_of (Normal tt); GetCookies (Normal issued);
      WriteFile cookiePath (cookie_file_text issued) written;
      match written with
      | Normal _ => Console LevelLog [LStr "Cookies saved successfully"]
      | Throw e => Console LevelError [LStr "Cookie saving error:"; LErr e]
      end;
      Console LevelLog [LStr "Login successful!"] ].
Proof.
  intros Hl Hg written.
  destruct (login s) as [r s'] eqn:Hrun. cbn [fst snd].
  unfold login, try_catch in Hrun.
  unfold bind at 1 in Hrun. rewrite run_extern in Hrun.
  fold login_call in Hrun. rewrite Hl in Hrun. cbn [fst snd] in Hrun.
  unfold bind at 1, set_isLoggedIn in Hrun.
  unfold bind at 1 in Hrun. rewrite run_extern in Hrun.
  cbn [world emit with_world] in Hrun. rewrite Hg in Hrun.
  cbn [fst snd] in Hrun.
  unfold bind at 1 in Hrun. rewrite run_saveCookies in Hrun.
  cbv zeta in Hrun. unfold console in Hrun.
  cbn [world emit with_world] in Hrun. fold written in Hrun.
  injection Hrun as <- <-.
  split; [reflexivity|].
  destruct written; (split; [reflexivity|]); new_trace; reflexivity.
Qed.

Lemma run_initialize_session (s : State) :
  isLoggedIn (loadCookies s).2 = true ->
  initialize s
  = (Normal tt,
     emit (Console LevelLog [LStr "Twitter poster initialized!"])
       (loadCookies s).2).
Proof.
  intros Hl. unfold initialize, try_catch.
  unfold bind at 1. rewrite (surjective_pairing (loadCookies s)).
  rewrite loadCookies_returns.
  unfold bind at 1, get_isLoggedIn. rewrite Hl. reflexivity.
Qed.

Lemma events_after_emit {allowed : Event -> bool} (s s1 : State) ev :
  only_since allowed (trace s) s1 -> allowed ev = true ->
  Forall (fun ev => allowed ev = true) (new_events s (emit ev s1)).
Proof.
  intros Hs Hev. apply only_new_events.
  exact (only_emit allowed (trace s) s1 (world s1) ev Hs Hev).
Qed.

(** X9. When loading the cookies leaves the session authenticated,
    [initialize] returns without logging in: beyond what [loadCookies]
    calls it only prints, so the client's [login] is not called and the
    cookie file is not written. *)
Theorem initialize_reuses_session (s : State) :
  isLoggedIn (loadCookies s).2 = true ->
  (initialize s).1 = Normal tt /\
  isLoggedIn (initialize s).2 = true /\
  Forall (fun ev => load_event ev = true) (new_events s (initialize s).2).
Proof.
  intros Hl. rewrite (run_initialize_session s Hl). cbn [fst snd].
  split; [reflexivity|]. split; [exact Hl|].
  apply events_after_emit; [|reflexivity].
  apply (only_loadCookies load_event (trace s)); [auto|apply only_start].
Qed.

Lemma run_initialize_refused (s : State) e :
  isLoggedIn (loadCookies s).2 = false ->
  (login_call (world (loadCookies s).2)).1 = Throw e ->
  (initialize s).1 = Throw e.
Proof.
  intros Hflag Hl.
  destruct (initialize s) as [r s'] eqn:Hrun. cbn [fst].
  unfold initialize, try_catch in Hrun.
  unfold bind at 1 in Hrun.
  rewrite (surjective_pairing (loadCookies s)) in Hrun.
  rewrite loadCookies_returns in Hrun.
  unfold bind at 1, get_isLoggedIn in Hrun. rewrite Hflag in Hrun.
  cbn [negb] in Hrun.
  unfold bind at 1 in Hrun. unfold bind at 1, console in Hrun.
  rewrite (run_login_refused _ e) in Hrun by exact Hl.
  unfold bind, throw in Hrun. now injection Hrun as <- _.
Qed.

(** X10. Entered without a session, when the cookie file gives none and
    the client refuses the login, [post] and [replyToTweet] throw the
    error of the login and send nothing. *)
Theorem operations_propagate_login_failure (tweetId text : string)
    (mediaFiles : list string) (s : State) (e : Exn) :
  isLoggedIn s = false ->
  isLoggedIn (loadCookies s).2 = false ->
  (login_call (world (loadCookies s).2)).1 = Throw e ->
  ((post text mediaFiles s).1 = Throw e /\
   List.filter is_send (new_events s (post text mediaFiles s).2) = []) /\
  ((replyToTweet tweetId text mediaFiles s).1 = Throw e /\
   List.filter is_send
     (new_events s (replyToTweet tweetId text mediaFiles s).2) = []).
Proof.
  intros Hl Hflag Hlogin.
  pose proof (run_initialize_refused s e Hflag Hlogin) as Hinit.
  assert (Hens : (ensure_initialized s).1 = Throw e).
  { unfold ensure_initialized, bind, get_isLoggedIn. now rewrite Hl. }
  destruct (ensure_initialized_no_send s) as (d & Htr & Hnone).
  pose proof (post_resumes text mediaFiles s) as Hpost.
  pose proof (replyToTweet_resumes tweetId text mediaFiles s) as Hreply.
  destruct (ensure_initialized s) as [r s1]. cbn [fst snd] in *. subst r.
  rewrite Hpost, Hreply. cbn [fst snd].
  split; (split; [reflexivity|]); now apply (no_send_after s s1 d).
Qed.

End LoggingIn.

(** ** Loading and saving the cookies *)

Section CookieFile.
Context {P : Platform}.

(** X11. When the cookie file holds valid cookies, the session state
    that [loadCookies] leaves is what the client answers for them: the
    answer of [isLoggedIn()] when handing the cookies over and asking both
    return, and not authenticated when either throws.  Nothing is thrown
    to the caller. *)
Theorem loadCookies_session_state (s : State) (text : string)
    (items : list Json) (c : Cookie) (cs : list Cookie) (w2 : World) :
  (fs_existsSync cookiePath (world s)).1 = true ->
  fs_readFile cookiePath (Some "utf8") (fs_existsSync cookiePath (world s)).2
  = (Normal text, w2) ->
  JSON_parse text = Normal (JArray items) ->
  omap valid_cookie items = c :: cs ->
  (loadCookies s).1 = Normal tt /\
  isLoggedIn (loadCookies s).2
  = match scraper_setCookies (c :: cs) w2 with
    | (Normal _, w3) =>
        match (scraper_isLoggedIn w3).1 with
        | Normal answer => answer
        | Throw _ => false
        end
    | (Throw _, _) => false
    end.
Proof.
  intros Hex Hrd Hparse Hvalid. split; [apply loadCookies_returns|].
  destruct (loadCookies s) as [r s'] eqn:Hrun. cbn [snd].
  unfold loadCookies, try_catch in Hrun.
  unfold bind at 1 in Hrun. rewrite run_existsSync, Hex in Hrun.
  unfold bind at 1 in Hrun. rewrite run_readFile in Hrun.
  cbn [world emit with_world] in Hrun. rewrite Hrd in Hrun.
  cbn [fst snd] in Hrun.
  unfold bind at 1, of_completion in Hrun. rewrite Hparse in Hrun.
  unfold bind at 1, cookiesJson_map in Hrun.
  rewrite run_array_map_parse_cookie in Hrun.
  rewrite filter_not_null_parsed, Hvalid in Hrun.
  cbn [isLoggedIn world trace emit with_world length Nat.ltb Nat.leb] in Hrun.
  unfold bind at 1 in Hrun. rewrite run_extern in Hrun.
  cbn [isLoggedIn world trace emit with_world] in Hrun.
  destruct (scraper_setCookies (c :: cs) w2) as [[[]|e] w3].
  - cbn [fst snd] in Hrun. unfold bind at 1 in Hrun.
    rewrite run_extern in Hrun.
    cbn [isLoggedIn world trace emit with_world] in Hrun.
    destruct (scraper_isLoggedIn w3) as [[answer|e] w4];
      cbn [fst snd] in Hrun;
      unfold bind, console, set_isLoggedIn in Hrun;
      now injection Hrun as <- <-.
  - cbn [fst snd] in Hrun. unfold bind, console, set_isLoggedIn in Hrun.
    now injection Hrun as <- <-.
Qed.

(** X12. When the cookie file exists and cannot be read, or its text is
    no JSON document, or the document is no array, [loadCookies] prints
    the error and returns: no cookie is handed to the client and the
    session is not authenticated. *)
Theorem loadCookies_rejects_bad_file (s : State) :
  (fs_existsSync cookiePath (world s)).1 = true ->
  (forall text items,
      (fs_readFile cookiePath (Some "utf8")
         (fs_existsSync cookiePath (world s)).2).1 = Normal text ->
      JSON_parse text <> Normal (JArray items)) ->
  (loadCookies s).1 = Normal tt /\
  isLoggedIn (loadCookies s).2 = false /\
  exists e,
    new_events s (loadCookies s).2
    = [ ExistsSync cookiePath true;
        ReadFile cookiePath (Some "utf8")
          (fs_readFile cookiePath (Some "utf8")
             (fs_existsSync cookiePath (world s)).2).1;
        Console LevelError [LStr "Cookie loading error:"; LErr e] ].
Proof.
  intros Hex Hbad. split; [apply loadCookies_returns|].
  destruct (loadCookies s) as [r s'] eqn:Hrun. cbn [snd].
  unfold loadCookies, try_catch in Hrun.
  unfold bind at 1 in Hrun. rewrite run_existsSync, Hex in Hrun.
  unfold bind at 1 in Hrun. rewrite run_readFile in Hrun.
  cbn [world emit with_world] in Hrun.
  destruct (fs_readFile cookiePath (Some "utf8") _).1 as [text|e] eqn:Hrd.
  - unfold bind at 1, of_completion in Hrun.
    specialize (Hbad text).
    destruct (JSON_parse text) as [j|e].
    + unfold bind at 1, cookiesJson_map in Hrun.
      destruct j as [| | | |items|];
        try (unfold throw, bind, console, set_isLoggedIn in Hrun;
             injection Hrun as <- <-;
             split; [reflexivity|]; eexists; new_trace; reflexivity).
      now destruct (Hbad items eq_refl).
    + unfold bind, console, set_isLoggedIn in Hrun.
      injection Hrun as <- <-.
      split; [reflexivity|]. eexists. new_trace. reflexivity.
  - unfold bind, console, set_isLoggedIn in Hrun.
    injection Hrun as <- <-.
    split; [reflexivity|]. eexists. new_trace. reflexivity.
Qed.

Lemma omap_valid_cookie_toJSON (cookies : list Cookie) :
  (forall c, c ∈ cookies -> Cookie_fromJSON (Cookie_toJSON c) = Normal (Some c)) ->
  omap valid_cookie (map Cookie_toJSON cookies) = cookies.
Proof.
  induction cookies as [|c cookies IH]; intros Hc; [reflexivity|].
  cbn. unfold valid_cookie at 1. rewrite (Hc c) by set_solver.
  f_equal. apply IH. intros c' Hin. apply Hc. set_solver.
Qed.

(** X13. Saving and loading are inverse over a file system that reads
    back what was written: when [saveCookies] has written the cookie file,
    the text written parses back to the array of records, and each record
    to its cookie, then [loadCookies], run next, hands to the client
    exactly the cookies saved, in their order. *)
Theorem saved_cookies_load_back (cookies : list Cookie) (s : State) :
  (forall w text w1,
      fs_writeFile cookiePath text w = (Normal tt, w1) ->
      (fs_existsSync cookiePath w1).1 = true /\
      (fs_readFile cookiePath (Some "utf8") (fs_existsSync cookiePath w1).2).1
      = Normal text) ->
  JSON_parse (cookie_file_text cookies)
  = Normal (JArray (map Cookie_toJSON cookies)) ->
  (forall c, c ∈ cookies -> Cookie_fromJSON (Cookie_toJSON c) = Normal (Some c)) ->
  (fs_writeFile cookiePath (cookie_file_text cookies) (world s)).1 = Normal tt ->
  let s1 := (saveCookies cookies s).2 in
  loaded_cookies (new_events s1 (loadCookies s1).2) = cookies.
Proof.
  intros Hfs Hjson Hcookie Hwrite s1.
  assert (Hw : world s1
               = (fs_writeFile cookiePath (cookie_file_text cookies) (world s)).2).
  { unfold s1. rewrite run_saveCookies. cbv zeta. cbn [snd].
    now destruct (fs_writeFile _ _ _).1. }
  destruct (Hfs (world s) (cookie_file_text cookies) (world s1)) as [Hex Hrd].
  { rewrite Hw, <- Hwrite. apply surjective_pairing. }
  destruct (loadCookies_array s1 _ _ Hex Hrd Hjson) as (Hloaded & _ & _).
  rewrite Hloaded. now apply omap_valid_cookie_toJSON.
Qed.

End CookieFile.

(** ** Posting with media *)

Section PostingMedia.
Context {P : Platform}.

(** X14. Once the session is ensured, when the preparation returns at
    least one attachment, [post] sends the text with exactly the
    attachments prepared and no reply target, and returns [true] when the
    client accepts. *)
Theorem post_with_media (text : string) (mediaFiles : list string)
    (s s1 s2 : State) (d : MediaData) (l : list MediaData) :
  ensure_initialized s = (Normal tt, s1) ->
  prepareMediaData mediaFiles s1 = (Normal (d :: l), s2) ->
  post text mediaFiles s = media_send text (d :: l) s2.
Proof.
  intros Hens Hprep.
  pose proof (post_resumes text mediaFiles s) as Hres.
  rewrite Hens in Hres. destruct Hres as [Hl1 ->].
  rewrite (run_post_authenticated _ _ _ Hl1).
  destruct mediaFiles as [|filePath rest]; [discriminate|].
  now rewrite Hprep.
Qed.

(** The sends of a run that ends with one send after entries without. *)
Lemma send_events_after (text : string) replyTo media (s s2 : State) d :
  trace s2 = trace s ++ d ->
  List.filter is_send (map event d) = [] ->
  let r := (scraper_sendTweet text replyTo media (world s2)).1 in
  let s3 :=
    emit (SendTweet text replyTo media r)
      (with_world s2 (scraper_sendTweet text replyTo media (world s2)).2) in
  forall okLog errLog,
    List.filter is_send
      (new_events s
         (match r with
          | Normal _ => (Normal true, emit (Console LevelLog okLog) s3)
          | Throw e => (Throw e, emit (Console LevelError (errLog e)) s3)
          end).2)
    = [SendTweet text replyTo media r].
Proof.
  intros Htr Hnone r s3 okLog errLog.
  assert (Hev : forall ev,
    List.filter is_send (new_events s (emit ev s3))
    = SendTweet text replyTo media r :: List.filter is_send [ev]).
  { intros ev. erewrite new_events_app
      by (unfold s3; cbn [trace emit with_world];
          rewrite Htr, <- !app_assoc; reflexivity).
    rewrite map_app, List.filter_app, Hnone. reflexivity. }
  destruct r as [[]|e]; cbn [snd]; now rewrite Hev.
Qed.

End PostingMedia.

Section ExistingMedia.
Context {P : Platform}.

(** The files while the run lasts, as far as the paths of [input] go. *)
Variable files : string -> option (Completion string).
Variable stable : World -> Prop.
Variable input : list string.

Hypothesis stable_existsSync : forall path w,
  path ∈ input -> stable w ->
  (fs_existsSync path w).1 = bool_decide (is_Some (files path)) /\
  stable (fs_existsSync path w).2.

Hypothesis stable_readFile : forall path r w,
  path ∈ input -> stable w -> files path = Some r ->
  (fs_readFile path None w).1 = r /\
  stable (fs_readFile path None w).2.

Lemma run_prepareMediaData_stable (s : State) :
  stable (world s) ->
  exists s2 d,
    prepareMediaData input s = (Normal (prepared files input), s2) /\
    trace s2 = trace s ++ d /\
    List.filter is_send (map event d) = [].
Proof.
  intros Hq.
  destruct (prepare_loop_stable files stable input stable_existsSync
              stable_readFile input ltac:(set_solver) [] s Hq)
    as (s2 & d & Hrun & _ & _).
  destruct (prepareMediaData_no_send input s) as (d' & Htr' & Hnone).
  rewrite run_prepareMediaData, Hrun in *. unfold prepared.
  destruct (unreadable files input) as [e|]; cbn [snd] in Htr';
    eexists _, d'; auto.
Qed.

(** X15. With the session there, over files that stay as they are, each
    operation makes exactly one send.  When every file of the input that
    exists can be read, [post] sends the text with the attachments of the
    paths that exist and are classified, in the order given, and with no
    attachment argument at all when there is none; [replyToTweet] sends
    the same attachments, as a sequence that may be empty, with the
    identifier of the tweet.  When an existing file of the input cannot be
    read, nothing is attached: [post] sends the text without an attachment
    argument and [replyToTweet] sends it with the empty sequence. *)
Theorem operations_send_the_prepared_media (tweetId text : string) (s : State) :
  isLoggedIn s = true ->
  stable (world s) ->
  (exists r,
      List.filter is_send (new_events s (post text input s).2)
      = [ SendTweet text None (post_media (prepared files input)) r ]) /\
  (exists r,
      List.filter is_send (new_events s (replyToTweet tweetId text input s).2)
      = [ SendTweet text (Some tweetId) (Some (prepared files input)) r ]).
Proof.
  intros Hl Hq.
  destruct (run_prepareMediaData_stable s Hq) as (s2 & d & Hprep & Htr & Hnone).
  split.
  - rewrite (run_post_authenticated _ _ _ Hl).
    destruct (input) as [|filePath rest] eqn:Hinput.
    + eexists.
      exact (send_events_after text None None s s [] ltac:(now rewrite app_nil_r)
               eq_refl _ (fun e => [LStr "Posting error:"; LErr e])).
    + rewrite Hprep.
      destruct (prepared files (filePath :: rest)) as [|a l]; eexists.
      * exact (send_events_after text None None s s2 d Htr Hnone _
                 (fun e => [LStr "Posting error:"; LErr e])).
      * exact (send_events_after text None (Some (a :: l)) s s2 d Htr Hnone _
                 (fun e => [LStr "Posting error:"; LErr e])).
  - rewrite (run_replyToTweet_authenticated _ _ _ _ Hl), Hprep. eexists.
    exact (send_events_after text (Some tweetId) _ s s2 d Htr Hnone _
             (fun e => [LStr "Reply error:"; LErr e])).
Qed.

End ExistingMedia.

(** ** The exit of the command line *)

Section Exit.
Context {P : Platform}.

Lemma accepted_send_is_send ev : is_accepted_send ev = true -> is_send ev = true.
Proof. now destruct ev. Qed.

Lemma filter_accepted_send evs :
  List.filter is_accepted_send evs
  = List.filter is_accepted_send (List.filter is_send evs).
Proof.
  induction evs as [|ev evs IH]; [reflexivity|]. cbn.
  destruct (is_send ev) eqn:Hs; cbn.
  - destruct (is_accepted_send ev); now rewrite IH.
  - destruct (is_accepted_send ev) eqn:Ha; [|exact IH].
    apply accepted_send_is_send in Ha. congruence.
Qed.

Lemma operation_event_no_exit mediaFiles ev :
  operation_event mediaFiles ev = true -> is_exit ev = false.
Proof. now destruct ev. Qed.

Lemma ends_with_refused (s s0 : State) message :
  trace s0 = trace s ->
  ends_with 1
    (new_events s
       (emit (Exit 1) (emit (Console LevelLog [LStr message]) s0))).
Proof.
  intros Htr. erewrite new_events_app
    by (cbn [trace emit]; rewrite Htr, <- !app_assoc; reflexivity).
  repeat split; auto.
Qed.

Lemma run_exit_with_state (op : M bool) (s : State) :
  exit_with op s
  = match op s with
    | (Normal _, s1) => (Normal 0, emit (Exit 0) s1)
    | (Throw e, s1) =>
        (Normal 1,
         emit (Exit 1) (emit (Console LevelError [LStr "Error:"; LErr e]) s1))
    end.
Proof.
  unfold exit_with, try_catch, bind, exit, console.
  now destruct (op s) as [[b|e] s1].
Qed.

Lemma ends_with_operation (op : M bool) text replyTo mediaFiles (s s0 : State) :
  trace s0 = trace s ->
  keeps (only_since (operation_event mediaFiles) (trace s0)) op ->
  sends_once text replyTo s0 (op s0) ->
  exists code,
    (exit_with op s0).1 = Normal code /\
    ends_with code (new_events s (exit_with op s0).2).
Proof.
  intros Htr0 Hk Hsends.
  destruct (Hk s0 (only_start _ s0)) as (d & Htr & Hall).
  assert (Hexit : List.filter is_exit (map event d) = []).
  { clear Htr. induction Hall as [|e d He _ IH]; [reflexivity|].
    cbn. now rewrite (operation_event_no_exit mediaFiles _ He). }
  unfold sends_once in Hsends. rewrite (new_events_app s0 _ d Htr) in Hsends.
  rewrite run_exit_with_state.
  destruct (op s0) as [[b|e] s1]; cbn [fst snd] in *.
  - exists 0. split; [reflexivity|].
    erewrite new_events_app
      by (cbn [trace emit]; rewrite Htr, Htr0, <- !app_assoc; reflexivity).
    destruct Hsends as (_ & _ & media & Hsend).
    rewrite map_app. repeat split; auto.
    + apply last_snoc.
    + rewrite List.filter_app, Hexit. reflexivity.
    + rewrite List.filter_app, filter_accepted_send, Hsend. reflexivity.
  - exists 1. split; [reflexivity|].
    erewrite new_events_app
      by (cbn [trace emit]; rewrite Htr, Htr0, <- !app_assoc; reflexivity).
    rewrite map_app. repeat split; auto.
    + change [ {| authenticated := isLoggedIn s1;
                  event := Console LevelError [LStr "Error:"; LErr e] |};
               {| authenticated := isLoggedIn s1; event := Exit 1 |} ]
        with ([ {| authenticated := isLoggedIn s1;
                   event := Console LevelError [LStr "Error:"; LErr e] |} ]
              ++ [ {| authenticated := isLoggedIn s1; event := Exit 1 |} ]).
      rewrite map_app, app_assoc. apply last_snoc.
    + rewrite List.filter_app, Hexit. reflexivity.
    + rewrite List.filter_app, filter_accepted_send.
      destruct Hsends as [->|[media ->]]; reflexivity.
Qed.

(** X16. Whatever the arguments and whatever the platform does, the
    command line never ends by an exception: it exits once, as the last
    thing it does, with code 0 or 1, and the code is 0 exactly when one
    send was made and accepted by the client; with code 1 no send was
    accepted. *)
Theorem main_exits_once (argv : list string) (s : State) :
  exists code,
    (main argv s).1 = Normal code /\
    ends_with code (new_events s (main argv s).2).
Proof.
  unfold main.
  destruct (js_not (argv !! 2%nat)).
  { exists 1. split; [reflexivity|]. now apply ends_with_refused. }
  unfold bind at 1, set_isLoggedIn.
  set (s0 := {| isLoggedIn := false; world := world s; trace := trace s |}).
  assert (Hrefused : forall message,
    ends_with 1
      (new_events s
         (emit (Exit 1) (emit (Console LevelLog [LStr message]) s0)))).
  { intros message. now apply ends_with_refused. }
  destruct (bool_decide (_ = "tweet")).
  - destruct (js_not (drop 3 argv !! 0%nat)).
    + exists 1. split; [reflexivity|]. apply Hrefused.
    + eapply (ends_with_operation _ _ None (drop 1 (drop 3 argv)) s s0 eq_refl).
      * now apply only_post.
      * apply sends_once_post.
  - destruct (bool_decide (_ = "reply")).
    + destruct (js_not (drop 3 argv !! 0%nat) || js_not (drop 3 argv !! 1%nat)).
      * exists 1. split; [reflexivity|]. apply Hrefused.
      * eapply (ends_with_operation _ _ (Some _) (drop 2 (drop 3 argv))
                  s s0 eq_refl).
        -- now apply only_replyToTweet.
        -- apply sends_once_replyToTweet.
    + exists 1. split; [reflexivity|]. apply Hrefused.
Qed.

(** X17. Run from the start of the process with the command reply and no
    tweet identifier or no text (a missing or empty argument), the command
    line prints that both are required and exits with code 1, and has
    called neither the file system nor the client. *)
Theorem main_reply_requires_arguments (argv : list string) (w : World) (c : string) :
  argv !! 2%nat = Some c ->
  JsString.toLowerCase c = "reply" ->
  js_not (drop 3 argv !! 0%nat) = true \/ js_not (drop 3 argv !! 1%nat) = true ->
  main argv (new_TwitterPost w)
  = (Normal 1, refused "Tweet ID and reply text are required" w).
Proof.
  intros Hc Hr Hmissing. unfold main. rewrite Hc.
  rewrite (js_not_some c) by (eapply lower_nonempty; [exact Hr|discriminate]).
  cbn [default]. unfold bind at 1, set_isLoggedIn.
  rewrite (bool_decide_eq_false_2 (JsString.toLowerCase c = "tweet"))
    by (rewrite Hr; discriminate).
  rewrite bool_decide_eq_true_2 by exact Hr.
  assert (Hor : js_not (drop 3 argv !! 0%nat) || js_not (drop 3 argv !! 1%nat)
                = true).
  { destruct Hmissing as [->| ->]; [reflexivity|apply orb_true_r]. }
  rewrite Hor. reflexivity.
Qed.

Lemma lower_empty c : JsString.toLowerCase c = "" -> c = "".
Proof. now destruct c. Qed.

(** X18. The command is matched without regard to the case of its
    letters, and the first two entries of the argument vector are not
    looked at: two runs whose commands differ only in letter case and
    whose further arguments agree are the same run. *)
Theorem main_command_letter_case (a b a' b' c c' : string)
    (args : list string) (s : State) :
  JsString.same_letters c c' = true ->
  main (a :: b :: c :: args) s = main (a' :: b' :: c' :: args) s.
Proof.
  intros Hsame%JsStringFacts.same_letters_lower.
  assert (Hnot : js_not (Some c) = js_not (Some c')).
  { destruct c as [|x c], c' as [|x' c']; try reflexivity; discriminate. }
  unfold main. cbv zeta.
  change ((a :: b :: c :: args) !! 2%nat) with (Some c).
  change ((a' :: b' :: c' :: args) !! 2%nat) with (Some c').
  change (drop 3 (a :: b :: c :: args)) with args.
  change (drop 3 (a' :: b' :: c' :: args)) with args.
  cbn [default]. unfold id. rewrite Hnot, Hsame. reflexivity.
Qed.

End Exit.

(** ** The attachments *)

Section Attachments.
Context {P : Platform}.

(** [getMimeType] answers [null] or a MIME type of the classification. *)
Lemma getMimeType_range filePath :
  getMimeType filePath = JsNull \/
  exists e mime,
    (e, mime) ∈ classification /\ getMimeType filePath = JsStr mime.
Proof.
  unfold getMimeType, js_get.
  destruct (mimeTypes !! _) as [mime|] eqn:Hget.
  - right. apply mimeTypes_key in Hget as (e & Hin & _).
    exists e, mime. split; [exact Hin|].
    unfold classification in Hin.
    repeat (apply elem_of_cons in Hin as [Hin|Hin];
            [injection Hin as -> ->; reflexivity|]).
    now apply elem_of_nil in Hin.
  - left. rewrite bool_decide_eq_false_2; [reflexivity|].
    apply lower_extension_not_inherited.
Qed.

(** X19. Every attachment that [prepareMediaData] returns carries one of
    the MIME types of the classification, as a string: never [null], an
    empty string, or a value that is no string. *)
Theorem prepared_media_types (mediaFiles : list string) (s : State) :
  exists mediaData,
    (prepareMediaData mediaFiles s).1 = Normal mediaData /\
    Forall
      (fun d => exists e mime,
           (e, mime) ∈ classification /\ mediaType d = JsStr mime)
      mediaData.
Proof.
  rewrite run_prepareMediaData.
  destruct (prepare_loop mediaFiles [] s) as [r s1] eqn:Hrun.
  apply prepare_loop_run in Hrun as (d & _ & _ & Hres).
  destruct r as [l|e]; [|exists []; split; [reflexivity|constructor]].
  exists l. split; [reflexivity|].
  destruct Hres as [(added & -> & Hadded) _]. cbn [app].
  eapply Forall_impl; [exact Hadded|].
  intros a (filePath & _ & _ & Htype & Htruthy).
  destruct (getMimeType_range filePath) as [Hnull|(e & mime & Hin & Hmime)].
  - rewrite Htype, Hnull in Htruthy. discriminate.
  - exists e, mime. split; [exact Hin|congruence].
Qed.

Lemma prepare_loop_length mediaFiles : forall mediaData (s : State) l,
  (prepare_loop mediaFiles mediaData s).1 = Normal l ->
  (length l <= length mediaData + length mediaFiles)%nat.
Proof.
  induction mediaFiles as [|filePath rest IH]; intros mediaData s l;
    cbn [prepare_loop length].
  - intros [= <-]. lia.
  - unfold bind at 1. rewrite run_existsSync.
    destruct (fs_existsSync filePath (world s)).1; cbn [negb].
    + unfold bind at 1. rewrite run_readFile.
      destruct (fs_readFile filePath None _).1 as [data|e]; [|discriminate].
      destruct (js_truthy (getMimeType filePath)); cbn [negb].
      * intros H%IH. rewrite length_app in H. cbn in H. lia.
      * unfold bind at 1, console. intros H%IH. lia.
    + unfold bind at 1, console. intros H%IH. lia.
Qed.

(** X21. [prepareMediaData] returns at most one attachment for each path
    it is given. *)
Theorem prepareMediaData_length (mediaFiles : list string) (s : State) :
  exists mediaData,
    (prepareMediaData mediaFiles s).1 = Normal mediaData /\
    (length mediaData <= length mediaFiles)%nat.
Proof.
  rewrite run_prepareMediaData.
  destruct (prepare_loop mediaFiles [] s) as [[l|e] s1] eqn:Hrun.
  - exists l. split; [reflexivity|].
    apply (prepare_loop_length mediaFiles [] s). now rewrite Hrun.
  - exists []. split; [reflexivity|]. cbn. lia.
Qed.

End Attachments.

(** ** Paths without an extension *)

Section NoPeriod.
Import JsString NodePath.

Lemma no_period_code path : forall i,
  no_period path = true -> code_is (charCodeAt path i) CHAR_DOT = false.
Proof.
  induction path as [|c rest IH]; intros i Hno; [now destruct i|].
  cbn in Hno. apply andb_true_iff in Hno as [Hc Hrest].
  destruct i as [|i].
  - unfold charCodeAt, code_is. cbn.
    apply Z.eqb_neq. intros Heq. apply negb_true_iff in Hc.
    apply Ascii.eqb_neq in Hc. apply Hc.
    rewrite <- (ascii_nat_embedding c).
    change CHAR_DOT with (Z.of_nat 46) in Heq. apply Nat2Z.inj in Heq.
    now rewrite Heq.
  - exact (IH i Hrest).
Qed.

Lemma scan_no_period path n : forall st,
  no_period path = true -> startDot st = -1 ->
  startDot (scan path n st) = -1.
Proof.
  induction n as [|i IH]; intros st Hno Hst; cbn [scan]; [exact Hst|].
  rewrite (no_period_code path i Hno).
  destruct (code_is (charCodeAt path i) CHAR_FORWARD_SLASH).
  - destruct (matchedSlash st); cbn [negb]; [now apply IH|exact Hst].
  - apply IH; [exact Hno|].
    destruct (end_ st =? -1); cbn [startDot]; rewrite Hst; cbn;
      try exact Hst; reflexivity.
Qed.

(** X20. A path without any period has no extension, and [getMimeType]
    answers [null] for it. *)
Theorem getMimeType_without_period (filePath : string) :
  no_period filePath = true ->
  extname filePath = "" /\ getMimeType filePath = JsNull.
Proof.
  intros Hno.
  assert (Hext : extname filePath = "").
  { unfold extname.
    now rewrite (scan_no_period filePath _ scan_init Hno eq_refl). }
  split; [exact Hext|]. unfold getMimeType. rewrite Hext.
  vm_compute. reflexivity.
Qed.

End NoPeriod.

(** ** One operation after another *)

Section Reuse.
Context {P : Platform}.

(** X22. The session is reused: after a [post] or a [replyToTweet] that
    returned, the next operation on the same object does not initialize
    again; it makes only the calls of its media preparation, its send, and
    prints. *)
Theorem session_reused_after_success (tweetId text text' : string)
    (mediaFiles mediaFiles' : list string) (s : State) (first : M bool) :
  first = post text mediaFiles \/ first = replyToTweet tweetId text mediaFiles ->
  is_normal (first s).1 = true ->
  let s1 := (first s).2 in
  let direct ev := media_event mediaFiles' ev || is_send ev || is_print ev in
  Forall (fun ev => direct ev = true)
    (new_events s1 (post text' mediaFiles' s1).2) /\
  Forall (fun ev => direct ev = true)
    (new_events s1 (replyToTweet tweetId text' mediaFiles' s1).2).
Proof.
  intros Hfirst Hnormal s1.
  apply direct_calls. unfold s1.
  destruct Hfirst as [-> | ->].
  - pose proof (sends_once_post text mediaFiles s) as H.
    unfold sends_once in H.
    destruct (post text mediaFiles s).1; [|discriminate]. tauto.
  - pose proof (sends_once_replyToTweet tweetId text mediaFiles s) as H.
    unfold sends_once in H.
    destruct (replyToTweet tweetId text mediaFiles s).1; [|discriminate].
    tauto.
Qed.

End Reuse.

(** ** The further properties on the stand-in platform *)

(** ** The preparation by the calls it has made *)

Section Reads.
Context {P : Platform}.



End Reads.

Section FurtherOnTheStandIn.
Import Sim SimMore.

(** A written file is there and reads back. *)
Lemma sim_reads_back documents : forall w text w1,
  fs_writeFile (Platform := platform documents)
    (cookiePath (Platform := platform documents)) text w = (Normal tt, w1) ->
  (fs_existsSync (Platform := platform documents)
     (cookiePath (Platform := platform documents)) w1).1 = true /\
  (fs_readFile (Platform := platform documents)
     (cookiePath (Platform := platform documents)) (Some "utf8")
     (fs_existsSync (Platform := platform documents)
        (cookiePath (Platform := platform documents)) w1).2).1
  = Normal text.
Proof.
  intros w text w1. cbn. unfold sim_writeFile, sim_readFile.
  destruct (node_at (files w) "cookies.json") as [[c|]|];
    try discriminate; intros [= <-]; cbn; auto.
Qed.

(** Witness of X5. *)
Lemma authenticated_operations_skip_initialize_witness :
  let s := signed_in [] (live_world one_picture) in
  isLoggedIn s = true /\
  let direct ev :=
    media_event ["exists.png"] ev || is_send ev || is_print ev in
  Forall (fun ev => direct ev = true)
    (new_events s (post "hi" ["exists.png"] s).2) /\
  Forall (fun ev => direct ev = true)
    (new_events s (replyToTweet "12" "hi" ["exists.png"] s).2).
Proof.
  intros s. split; [reflexivity|].
  exact (authenticated_operations_skip_initialize "12" "hi" ["exists.png"] s
           eq_refl).
Defined.

(** Witness of X6. *)
Lemma login_refused_witness :
  let s := new_TwitterPost (P := platform []) refusing_login in
  let e := JsError "Error" "login refused" in
  (login_call (world s)).1 = Throw e /\
  (login s).1 = Throw e /\
  isLoggedIn (login s).2 = false /\
  new_events s (login s).2
  = [ login_event_of (Throw e);
      Console LevelError [LStr "Login error:"; LErr e] ].
Proof.
  intros s e. split; [reflexivity|].
  exact (login_refused s e eq_refl).
Defined.

(** Witness of X7. *)
Lemma login_without_cookies_witness :
  let s := new_TwitterPost (P := platform_without_cookies) (world_of []) in
  let w1 := (login_call (world s)).2 in
  let e := JsError "Error" "no cookies" in
  login_call (world s) = (Normal tt, w1) /\
  scraper_getCookies w1 = (Throw e, w1) /\
  (login s).1 = Throw e /\
  isLoggedIn (login s).2 = true /\
  new_events s (login s).2
  = [ login_event_of (Normal tt); GetCookies (Throw e);
      Console LevelError [LStr "Login error:"; LErr e] ].
Proof.
  intros s w1 e. split; [reflexivity|]. split; [reflexivity|].
  exact (login_without_cookies s w1 w1 e eq_refl eq_refl).
Defined.

(** Witness of X8. *)
Lemma login_saves_issued_cookies_witness :
  let s := fresh [] [] in
  let w1 := (login_call (world s)).2 in
  let issued : list (Cookie (Platform := platform [])) :=
    [("auth_token", "fresh")] in
  login_call (world s) = (Normal tt, w1) /\
  scraper_getCookies w1 = (Normal issued, w1) /\
  (login s).1 = Normal tt /\
  isLoggedIn (login s).2 = true /\
  new_events s (login s).2
  = [ login_event_of (Normal tt); GetCookies (Normal issued);
      WriteFile "cookies.json" "[{key:'auth_token',value:'fresh'}]" (Normal tt);
      Console LevelLog [LStr "Cookies saved successfully"];
      Console LevelLog [LStr "Login successful!"] ].
Proof.
  intros s w1 issued. split; [reflexivity|]. split; [reflexivity|].
  exact (login_saves_issued_cookies s w1 w1 issued eq_refl eq_refl).
Defined.

(** Witness of X9. *)
Lemma initialize_reuses_session_witness :
  let s := new_TwitterPost (P := platform cookie_documents)
             (live_world with_cookie_file) in
  isLoggedIn (loadCookies s).2 = true /\
  (initialize s).1 = Normal tt /\
  isLoggedIn (initialize s).2 = true /\
  Forall (fun ev => load_event ev = true) (new_events s (initialize s).2).
Proof.
  intros s.
  assert (Hl : isLoggedIn (loadCookies s).2 = true) by (vm_compute; reflexivity).
  split; [exact Hl|]. exact (initialize_reuses_session s Hl).
Defined.

(** Witness of X10. *)
Lemma operations_propagate_login_failure_witness :
  let s := new_TwitterPost (P := platform []) refusing_login in
  let e := JsError "Error" "login refused" in
  ((post "hello" ["missing.jpg"] s).1 = Throw e /\
   List.filter is_send (new_events s (post "hello" ["missing.jpg"] s).2) = []) /\
  ((replyToTweet "12" "hello" ["missing.jpg"] s).1 = Throw e /\
   List.filter is_send
     (new_events s (replyToTweet "12" "hello" ["missing.jpg"] s).2) = []).
Proof.
  intros s e.
  exact (operations_propagate_login_failure "12" "hello" ["missing.jpg"] s e
           eq_refl ltac:(vm_compute; reflexivity) ltac:(vm_compute; reflexivity)).
Defined.

(** Witness of X11. *)
Lemma loadCookies_session_state_witness :
  let s := new_TwitterPost (P := platform cookie_documents)
             (live_world with_cookie_file) in
  (loadCookies s).1 = Normal tt /\ isLoggedIn (loadCookies s).2 = true.
Proof.
  intros s.
  exact (loadCookies_session_state s cookie_text
           [ JObject [("key", JString "auth_token"); ("value", JString "abc")];
             JString "junk" ]
           ("auth_token", "abc") [] (live_world with_cookie_file)
           eq_refl eq_refl eq_refl eq_refl).
Defined.

(** Witness of X12. *)
Lemma loadCookies_rejects_bad_file_witness :
  let s := fresh object_documents with_object_file in
  (loadCookies s).1 = Normal tt /\
  isLoggedIn (loadCookies s).2 = false /\
  exists e,
    new_events s (loadCookies s).2
    = [ ExistsSync "cookies.json" true;
        ReadFile "cookies.json" (Some "utf8") (Normal object_text);
        Console LevelError [LStr "Cookie loading error:"; LErr e] ].
Proof.
  intros s.
  refine (loadCookies_rejects_bad_file s eq_refl _).
  intros text items Hrd. injection Hrd as <-. discriminate.
Defined.

(** Witness of X13. *)
Lemma saved_cookies_load_back_witness :
  let s := fresh session_documents [] in
  let s1 := (saveCookies (P := platform session_documents) session_cookies s).2 in
  (fs_writeFile (Platform := platform session_documents)
     (cookiePath (Platform := platform session_documents))
     (cookie_file_text (P := platform session_documents) session_cookies)
     (world s)).1
  = Normal tt /\
  loaded_cookies (new_events s1 (loadCookies s1).2) = session_cookies.
Proof.
  intros s s1. split; [reflexivity|].
  refine (saved_cookies_load_back (P := platform session_documents)
            session_cookies s
            (sim_reads_back session_documents) _ _ eq_refl).
  - vm_compute. reflexivity.
  - intros [k v] _. reflexivity.
Defined.

(** Witness of X14. *)
Lemma post_with_media_witness :
  let s := fresh [] one_picture in
  let s1 := (ensure_initialized s).2 in
  let s2 := (prepareMediaData ["exists.png"] s1).2 in
  let picture := {| data := "PNG"; mediaType := JsStr "image/png" |} in
  ensure_initialized s = (Normal tt, s1) /\
  prepareMediaData ["exists.png"] s1 = (Normal [picture], s2) /\
  post "hello" ["exists.png"] s = media_send "hello" [picture] s2.
Proof.
  intros s s1 s2 picture.
  assert (Hens : ensure_initialized s = (Normal tt, s1))
    by (vm_compute; reflexivity).
  assert (Hprep : prepareMediaData ["exists.png"] s1 = (Normal [picture], s2))
    by (vm_compute; reflexivity).
  split; [exact Hens|]. split; [exact Hprep|].
  exact (post_with_media "hello" ["exists.png"] s s1 s2 picture [] Hens Hprep).
Defined.

(** Witness of X15, among files of which one is a directory: a post
    with the picture and a missing file attaches the picture, and a reply
    with the picture and the directory attaches nothing. *)
Lemma operations_send_the_prepared_media_witness :
  let s := signed_in [] (live_world picture_and_directory) in
  let picture := {| data := "PNG"; mediaType := JsStr "image/png" |} in
  (exists r,
      List.filter is_send
        (new_events s (post "hi" ["exists.png"; "missing.xyz"] s).2)
      = [ SendTweet "hi" None (Some [picture]) r ]) /\
  (exists r,
      List.filter is_send
        (new_events s (replyToTweet "12" "hi" ["exists.png"; "d.png"] s).2)
      = [ SendTweet "hi" (Some "12") (Some []) r ]).
Proof.
  intros s picture. split.
  - exact (proj1 (operations_send_the_prepared_media (P := platform [])
             (outcome_of picture_and_directory)
             (has_files picture_and_directory)
             ["exists.png"; "missing.xyz"]
             (has_files_existsSync [] picture_and_directory _)
             (has_files_readFile [] picture_and_directory _)
             "12" "hi" s eq_refl eq_refl)).
  - exact (proj2 (operations_send_the_prepared_media (P := platform [])
             (outcome_of picture_and_directory)
             (has_files picture_and_directory)
             ["exists.png"; "d.png"]
             (has_files_existsSync [] picture_and_directory _)
             (has_files_readFile [] picture_and_directory _)
             "12" "hi" s eq_refl eq_refl)).
Defined.

(** Witness of X17. *)
Lemma main_reply_requires_arguments_witness :
  main (P := platform []) ["node"; "autoPost.js"; "Reply"; "12"] (fresh [] [])
  = (Normal 1,
     refused (P := platform []) "Tweet ID and reply text are required"
       (world_of [])).
Proof.
  exact (main_reply_requires_arguments (P := platform [])
           ["node"; "autoPost.js"; "Reply"; "12"] (world_of []) "Reply"
           eq_refl eq_refl (or_intror eq_refl)).
Defined.

(** Witness of X18. *)
Lemma main_command_letter_case_witness :
  main (P := platform []) ["node"; "autoPost.js"; "tweet"; "hello"] (fresh [] [])
  = main (P := platform []) ["/usr/bin/node"; "x.js"; "TWEET"; "hello"]
      (fresh [] []).
Proof.
  exact (main_command_letter_case (P := platform [])
           "node" "autoPost.js" "/usr/bin/node" "x.js" "tweet" "TWEET"
           ["hello"] (fresh [] []) eq_refl).
Defined.

(** Witness of X20. *)
Lemma getMimeType_without_period_witness :
  NodePath.extname "media/README" = "" /\ getMimeType "media/README" = JsNull.
Proof. exact (getMimeType_without_period "media/README" eq_refl). Defined.

(** Witness of X22. *)
Lemma session_reused_after_success_witness :
  let s := fresh [] one_picture in
  let s1 := (post "one" [] s).2 in
  let direct ev :=
    media_event ["exists.png"] ev || is_send ev || is_print ev in
  is_normal (post "one" [] s).1 = true /\
  Forall (fun ev => direct ev = true)
    (new_events s1 (post "two" ["exists.png"] s1).2) /\
  Forall (fun ev => direct ev = true)
    (new_events s1 (replyToTweet "12" "two" ["exists.png"] s1).2).
Proof.
  intros s s1 direct.
  assert (Hn : is_normal (post "one" [] s).1 = true)
    by (vm_compute; reflexivity).
  split; [exact Hn|].
  exact (session_reused_after_success "12" "one" "two" [] ["exists.png"] s
           (post "one" []) (or_introl eq_refl) Hn).
Defined.

End FurtherOnTheStandIn.
